(** * Shallow embedding of gsemantique/data/download.py

    The development follows the module layout of the Python source:
    - [Downloader] (catalog assembly, extents),
    - [_STACDownloader] (retry loop [run], batched download
      [_async_download] with its re-signing loop, preview size estimate,
      merge of per-batch artifacts, cleanup of empty item directories).

    Network fetches, signing and random sampling are external: they are
    taken as oracles (arguments), everything the repository itself
    computes is written out. *)

From Stdlib Require Import String Ascii.
From Stdlib Require Import List ZArith QArith Qminmax Lia Permutation Bool.
From Stdlib Require Import Reals Lra.
From Stdlib Require Import Sorted.
From Stdlib Require OrderedTypeEx.
Import ListNotations.

(* ------------------------------------------------------------------ *)
(** ** Common data: items, Python exceptions *)

(** A point of a GeoJSON ring; coordinates are the floats of the
    geometry, represented exactly as rationals. *)
Record point := mkPoint { px : Q; py : Q }.

(** The exterior ring of a polygon, and a (multi)polygon as the list of
    its polygons (what [shapely.geometry.shape] builds from a GeoJSON
    geometry). Holes lie inside the exterior ring and do not affect
    bounds, so they are not represented. *)
Definition polygon := list point.
Definition geometry := list polygon.

(** A STAC item: its id, its geometry and its datetime (as a timestamp).
    Asset hrefs are not represented: signing and downloading only change
    hrefs and files on disk, which are modelled separately. *)
Record item := mkItem {
  item_id : string;
  item_geometry : geometry;
  item_datetime : Z
}.

(** The Python exceptions the modelled code can raise. *)
Inductive py_exn :=
| UnboundLocalError
| ZeroDivisionError
| ValueError
| FileNotFoundError
| AttemptRaised.

(** Decimal rendering of a natural number, as in an f-string. *)
Fixpoint digits_rev (fuel n : nat) : list ascii :=
  match fuel with
  | O => []
  | S f =>
      let d := Ascii.ascii_of_nat (48 + n mod 10) in
      if n <? 10 then [d] else d :: digits_rev f (n / 10)
  end.

Definition nat_to_string (n : nat) : string :=
  string_of_list_ascii (rev (digits_rev (S n) n)).

(* ------------------------------------------------------------------ *)
(** ** [_STACDownloader.run]: the whole-collection retry loop *)

(** Lines printed by [run]. *)
Inductive run_line :=
| LoopLine (i : nat)                  (* "Download loop {i}" *)
| RetryLine                           (* "Retry download to get all items." *)
| NotAllLine                          (* "Not all items retrieved. ..." *)
| DownloadedLine (got req : nat)      (* "Downloaded items: {got}/{req}" *)
| SuccessLine (ratio : Q).            (* "Success rate: {ratio:.2%}" *)

(** The local state of [run]: the collections each attempt was started
    on, the printed lines, and the locals [coll] (through its length)
    and [ratio], unbound ([None]) until the loop body assigns them. *)
Record run_state := mkRunState {
  rs_calls : list (list item);
  rs_out : list run_line;
  rs_coll : option nat;
  rs_ratio : option Q
}.

Definition run_init : run_state := mkRunState [] [] None None.

Definition rs_print (l : run_line) (s : run_state) : run_state :=
  mkRunState (rs_calls s) (rs_out s ++ [l]) (rs_coll s) (rs_ratio s).

Definition rs_attempt (c : list item) (s : run_state) : run_state :=
  mkRunState (rs_calls s ++ [c]) (rs_out s) (rs_coll s) (rs_ratio s).

Definition rs_set_coll (got : nat) (s : run_state) : run_state :=
  mkRunState (rs_calls s) (rs_out s) (Some got) (rs_ratio s).

Definition rs_set_ratio (r : Q) (s : run_state) : run_state :=
  mkRunState (rs_calls s) (rs_out s) (rs_coll s) (Some r).

(** A computation that either returns normally or raises, in both
    cases with the state reached (Python keeps side effects). *)
Inductive outcome (S : Type) :=
| Ok (s : S)
| Raised (e : py_exn) (s : S).
Arguments Ok {S} s.
Arguments Raised {S} e s.

(** [len(coll) / len(self.item_coll)]. Both lengths are integers below
    2^53, so the IEEE quotient equals 1.0 exactly when the exact quotient
    does; the exact rational is used. *)
Definition ratio_of (got req : nat) : Q :=
  inject_Z (Z.of_nat got) / inject_Z (Z.of_nat req).

Section Run.

(** One iteration's [await self._async_download(...)] followed by
    [self._remove_empty_items(...)] and the re-read of
    item-collection.json: given the attempt number and the collection
    the download is started on, the number of items in the re-read
    collection, or [None] when that part raised. *)
Variable attempt : nat -> list item -> option nat.

(** [for i in range(self.retries): ...], [k] iterations left. *)
Fixpoint run_loop (item_coll : list item) (retries : Z) (i k : nat)
    (s : run_state) : outcome run_state :=
  match k with
  | O => Ok s
  | S k' =>
      let s1 := rs_attempt item_coll (rs_print (LoopLine i) s) in
      match attempt i item_coll with
      | None => Raised AttemptRaised s1
      | Some got =>
          let s2 := rs_set_coll got s1 in
          match length item_coll with
          | O => Raised ZeroDivisionError s2
          | req =>
              let ratio := ratio_of got req in
              let s3 := rs_set_ratio ratio s2 in
              if Qeq_bool ratio 1 then Ok s3
              else if (Z.of_nat i <? retries - 1)%Z
              then run_loop item_coll retries (S i) k' (rs_print RetryLine s3)
              else run_loop item_coll retries (S i) k' (rs_print NotAllLine s3)
          end
      end
  end.

(** [_STACDownloader.run]: the loop, then the two summary prints,
    which read the locals [coll] and [ratio]. *)
Definition run (item_coll : list item) (retries : Z) : outcome run_state :=
  match run_loop item_coll retries 0 (Z.to_nat retries) run_init with
  | Raised e s => Raised e s
  | Ok s =>
      match rs_coll s, rs_ratio s with
      | Some got, Some r =>
          Ok (rs_print (SuccessLine r)
                (rs_print (DownloadedLine got (length item_coll)) s))
      | _, _ => Raised UnboundLocalError s
      end
  end.

End Run.

(* ------------------------------------------------------------------ *)
(** ** [_STACDownloader._async_download]: batches and re-signing *)

(** [range(start, stop, step)] for a positive step; [fuel] bounds the
    number of elements (at most [stop] when [step >= 1]). *)
Fixpoint range_step_aux (fuel start stop step : nat) : list nat :=
  match fuel with
  | O => []
  | S f =>
      if start <? stop then start :: range_step_aux f (start + step) stop step
      else []
  end.

(** [range(0, stop, step)]; a zero step raises ValueError. *)
Definition py_range (stop step : nat) : option (list nat) :=
  if step =? 0 then None else Some (range_step_aux stop 0 stop step).

(** [l[i:j]] for [0 <= i <= j]. *)
Definition py_slice {A} (l : list A) (i j : nat) : list A :=
  firstn (j - i) (skipn i l).

(** [reauth_batch_size or len(coll)]: [None] and [0] are falsy. *)
Definition batch_size_of (reauth_batch_size : option nat) (n : nat) : nat :=
  match reauth_batch_size with
  | Some (S b) => S b
  | _ => n
  end.

(** Observable events of a download phase: a call of
    [STACCube._sign_metadata] on a batch with its outcome (returned or
    raised), the two log lines of the re-signing loop, [time.sleep], and
    the [stac_asset.download_item_collection] call on a batch with the
    directory and the artifact file name it writes. *)
Inductive event :=
| SignCall (batch : list item) (ok : bool)
| Paused
| Sleep (seconds : nat)
| Resumed
| Fetch (dest : string) (file_name : string) (batch : list item).

(** The re-signing [while not signed] loop of one batch. [ok c] says
    whether the [c]-th signing call of the run returns normally (a bare
    [except:] catches anything else). [fuel] bounds the number of calls
    looked at; [None] means still retrying when it runs out. On exit it
    returns the next call number and the final [on_hold_count]. *)
Fixpoint sign_loop (fuel : nat) (ok : nat -> bool) (c on_hold : nat)
    (batch : list item) : list event * option (nat * nat) :=
  match fuel with
  | O => ([], None)
  | S f =>
      if ok c then ([SignCall batch true], Some (S c, on_hold))
      else
        let h := S on_hold in
        let '(evs, r) := sign_loop f ok (S c) h batch in
        (SignCall batch false :: (if h =? 1 then [Paused] else [])
           ++ Sleep 1 :: evs, r)
  end.

(** The loop followed by [if on_hold_count: print(... continued ...)]. *)
Definition resign (fuel : nat) (ok : nat -> bool) (c : nat) (batch : list item)
    : list event * option nat :=
  let '(evs, r) := sign_loop fuel ok c 0 batch in
  match r with
  | None => (evs, None)
  | Some (c', h) => (evs ++ (if h =? 0 then [] else [Resumed]), Some c')
  end.

(** How a phase ends: normally (with the next signing call number),
    blocked in the re-signing loop when the fuel ran out, or raised. *)
Inductive phase_end :=
| PhaseDone (c : nat)
| PhaseBlocked
| PhaseRaised (e : py_exn).

(** The artifact file name of the batch starting at [i]: the main loop
    passes [f"item-collection-batch-{i}.json"], the preview loop passes
    none, so stac_asset's default name is used. *)
Definition batch_file_name (i : nat) : string :=
  ("item-collection-batch-" ++ nat_to_string i ++ ".json")%string.

Definition default_file_name : string := "item-collection.json".

(** [for i in starts: batch = coll[i:i+batch_size]; <reauth>; <download>] *)
Fixpoint batch_loop (fuel : nat) (ok : nat -> bool)
    (reauth_batch_size : option nat) (dest : string) (named : bool)
    (coll : list item) (bs : nat) (starts : list nat) (c : nat)
    : list event * phase_end :=
  match starts with
  | [] => ([], PhaseDone c)
  | i :: rest =>
      let batch := py_slice coll i (i + bs) in
      let fetch := Fetch dest (if named then batch_file_name i
                               else default_file_name) batch in
      match reauth_batch_size with
      | Some _ =>
          let '(e1, r) := resign fuel ok c batch in
          match r with
          | None => (e1, PhaseBlocked)
          | Some c' =>
              let '(e2, r2) :=
                batch_loop fuel ok reauth_batch_size dest named coll bs rest c' in
              (e1 ++ fetch :: e2, r2)
          end
      | None =>
          let '(e2, r2) :=
            batch_loop fuel ok reauth_batch_size dest named coll bs rest c in
          (fetch :: e2, r2)
      end
  end.

(** One batched phase over [coll] (lines 326-375 for the preview,
    408-459 for the main download). *)
Definition download_phase (fuel : nat) (ok : nat -> bool)
    (reauth_batch_size : option nat) (dest : string) (named : bool)
    (coll : list item) (c : nat) : list event * phase_end :=
  let bs := batch_size_of reauth_batch_size (List.length coll) in
  match py_range (List.length coll) bs with
  | None => ([], PhaseRaised ValueError)
  | Some starts => batch_loop fuel ok reauth_batch_size dest named coll bs starts c
  end.

(** The signing and fetching of one [_async_download] call: the preview
    phase on the sample [pre_coll] (drawn by [np.random.choice], an
    argument here) when [len(item_coll) >= preview_size], into the
    scratch directory, then the main phase into [out_dir]. The preview's
    cleanup and size estimate between the two (modelled below) are taken
    to return normally. *)
Definition download_events (fuel : nat) (ok : nat -> bool)
    (preview_size : nat) (reauth_batch_size : option nat)
    (item_coll pre_coll : list item) : list event * phase_end :=
  let '(e0, r0) :=
    if preview_size <=? List.length item_coll
    then download_phase fuel ok reauth_batch_size "temp_dir" false pre_coll 0
    else ([], PhaseDone 0) in
  match r0 with
  | PhaseDone c =>
      let '(e1, r1) :=
        download_phase fuel ok reauth_batch_size "out_dir" true item_coll c in
      (e0 ++ e1, r1)
  | other => (e0, other)
  end.

(** The signing calls of an event trace, and the batches signed
    successfully and fetched, in order. *)
Definition is_sign_call (e : event) : bool :=
  match e with SignCall _ _ => true | _ => false end.

Inductive milestone :=
| Signed (batch : list item)
| Fetched (batch : list item).

Definition milestone_of (e : event) : list milestone :=
  match e with
  | SignCall b true => [Signed b]
  | Fetch _ _ b => [Fetched b]
  | _ => []
  end.

Definition milestones (evs : list event) : list milestone :=
  flat_map milestone_of evs.

(* ------------------------------------------------------------------ *)
(** ** Merge of the per-batch artifacts (lines 465-477) *)

(** The contents of a file of [out_dir] as far as the merge reads it. *)
Inductive content :=
| ItemCollFile (items : list item)
| OtherEntry.

(** The entries of [out_dir] with their contents. *)
Definition store := list (string * content).

Definition store_lookup (name : string) (st : store) : option content :=
  match find (fun p => String.eqb (fst p) name) st with
  | Some (_, c) => Some c
  | None => None
  end.

(** [os.remove(f)]. *)
Definition store_remove (name : string) (st : store) : store :=
  filter (fun p => negb (String.eqb (fst p) name)) st.

(** [save_object(path)]: overwrite the file, or create it. *)
Definition store_save (name : string) (c : content) (st : store) : store :=
  if existsb (fun p => String.eqb (fst p) name) st
  then map (fun p => if String.eqb (fst p) name then (name, c) else p) st
  else st ++ [(name, c)].

Definition batch_prefix : string := "item-collection-batch-".

(** [for f in coll_paths: item_collection = from_file(f);
    all_items.extend(item_collection.items); os.remove(f)] *)
Fixpoint merge_loop (paths : list string) (all_items : list item) (st : store)
    : outcome (list item * store) :=
  match paths with
  | [] => Ok (all_items, st)
  | f :: rest =>
      match store_lookup f st with
      | Some (ItemCollFile items) =>
          merge_loop rest (all_items ++ items) (store_remove f st)
      | Some OtherEntry => Raised ValueError (all_items, st)
      | None => Raised FileNotFoundError (all_items, st)
      end
  end.

(** The merge step. [listing] is what [os.listdir(self.out_dir)]
    returns: the names of the directory's entries, in an order the
    file system chooses. *)
Definition merge_batches (listing : list string) (st : store) : outcome store :=
  let coll_paths := filter (String.prefix batch_prefix) listing in
  match merge_loop coll_paths [] st with
  | Raised e (_, st') => Raised e st'
  | Ok (all_items, st') =>
      Ok (store_save default_file_name (ItemCollFile all_items) st')
  end.

(* ------------------------------------------------------------------ *)
(** ** Directory trees, [_find_empty_subdirs], [_remove_empty_items] *)

Local Set Warnings "-register-all".

(** An entry of a directory: a file with its size and whether it is a
    symbolic link, or a subdirectory with its entries (in listing
    order). *)
Inductive entry :=
| FileE (name : string) (size : Z) (islink : bool)
| DirE (name : string) (children : list entry).

Definition entry_name (e : entry) : string :=
  match e with FileE n _ _ => n | DirE n _ => n end.

(** [os.walk(directory)] top-down with the pruning of
    [_find_empty_subdirs]: at the directory [d] at path [here], append
    [here] when it has neither subdirectories nor files, then each
    subdirectory with an empty listing (which is also removed from
    [dirnames]), then walk the remaining subdirectories in order. Paths
    are relative to the walked root, [[]] being the root itself. *)
Fixpoint walk_empty (here : list string) (d : entry) {struct d}
    : list (list string) :=
  match d with
  | FileE _ _ _ => []
  | DirE _ cs =>
      match cs with [] => [here] | _ => [] end ++
      flat_map (fun c => match c with
                         | DirE m [] => [here ++ [m]]
                         | _ => []
                         end) cs ++
      (fix go (l : list entry) : list (list string) :=
         match l with
         | [] => []
         | c :: rest =>
             match c with
             | DirE m (_ :: _) => walk_empty (here ++ [m]) c ++ go rest
             | _ => go rest
             end
         end) cs
  end.

(** The state of an output directory: its entries ([None] when the
    directory does not exist) and the items stored in its
    item-collection.json ([None] when the file does not exist). *)
Record fsstate := mkFs {
  fs_root : option (list entry);
  fs_artifact : option (list item)
}.

(** [_find_empty_subdirs(out_path)]; walking a missing directory yields
    nothing. *)
Definition find_empty_subdirs (root : option (list entry)) : list (list string) :=
  match root with
  | None => []
  | Some cs => walk_empty [] (DirE "" cs)
  end.

(** A small state-and-exception monad for the file-system code. *)
Inductive res (A : Type) :=
| Ret (a : A) (s : fsstate)
| Exc (e : py_exn) (s : fsstate).
Arguments Ret {A} a s.
Arguments Exc {A} e s.

Definition M (A : Type) := fsstate -> res A.

Definition mret {A} (a : A) : M A := fun s => Ret a s.
Definition mbind {A B} (m : M A) (k : A -> M B) : M B :=
  fun s => match m s with Ret a s' => k a s' | Exc e s' => Exc e s' end.
Definition mraise {A} (e : py_exn) : M A := fun s => Exc e s.

Notation "x <- m ;; k" := (mbind m (fun x => k))
  (at level 61, m at next level, right associativity).
Notation "m ;;; k" := (mbind m (fun _ => k))
  (at level 61, right associativity).

(** Does a directory exist at the (non-root) relative path [p]? *)
Fixpoint dir_exists (p : list string) (cs : list entry) : bool :=
  match p with
  | [] => true
  | n :: p' =>
      existsb (fun e => match e with
                        | DirE m ch => String.eqb m n && dir_exists p' ch
                        | FileE _ _ _ => false
                        end) cs
  end.

(** Remove the entry at the (non-root) relative path [p]. *)
Fixpoint rm_path (p : list string) (cs : list entry) : list entry :=
  match p with
  | [] => cs
  | [n] => filter (fun e => negb (String.eqb (entry_name e) n)) cs
  | n :: p' =>
      map (fun e => match e with
                    | DirE m ch => if String.eqb m n then DirE m (rm_path p' ch) else e
                    | FileE _ _ _ => e
                    end) cs
  end.

(** [shutil.rmtree(path)]: removing the walked root removes the whole
    output directory, item-collection.json included; a missing path
    raises FileNotFoundError. *)
Definition rmtree (p : list string) : M unit :=
  fun s =>
    match fs_root s with
    | None => Exc FileNotFoundError s
    | Some cs =>
        match p with
        | [] => Ret tt (mkFs None None)
        | _ => if dir_exists p cs
               then Ret tt (mkFs (Some (rm_path p cs)) (fs_artifact s))
               else Exc FileNotFoundError s
        end
    end.

Fixpoint rmtree_all (ps : list (list string)) : M unit :=
  match ps with
  | [] => mret tt
  | p :: rest => rmtree p ;;; rmtree_all rest
  end.

(** [pystac.ItemCollection.from_file(coll_path)] and [save_object]. *)
Definition read_artifact : M (list item) :=
  fun s => match fs_artifact s with
           | Some items => Ret items s
           | None => Exc FileNotFoundError s
           end.

(** [save_object] is represented at the level of the item list: the
    artifact's items are replaced, while the byte size of the rewritten
    file in the directory tree is not tracked (its entry keeps its old
    size). *)
Definition write_artifact (items : list item) : M unit :=
  fun s => Ret tt (mkFs (fs_root s) (Some items)).

(** [list.remove(x)]: drop the first occurrence, ValueError if none. *)
Fixpoint py_list_remove (x : string) (l : list string) : option (list string) :=
  match l with
  | [] => None
  | y :: l' =>
      if String.eqb y x then Some l'
      else option_map (cons y) (py_list_remove x l')
  end.

(** [for id in rm_items: all_items.remove(id)] *)
Fixpoint remove_each (rm : list string) (all : list string) : M (list string) :=
  match rm with
  | [] => mret all
  | x :: rest =>
      match py_list_remove x all with
      | None => mraise ValueError
      | Some all' => remove_each rest all'
      end
  end.

(** [os.path.split(x)[-1]]; the walked root's own name is [out_name]. *)
Definition basename (out_name : string) (p : list string) : string :=
  match p with [] => out_name | _ => last p ""%string end.

Definition in_ids (x : string) (ids : list string) : bool :=
  existsb (String.eqb x) ids.

(** [_STACDownloader._remove_empty_items(out_path)], [out_name] being the
    last component of [out_path]. *)
Definition remove_empty_items (out_name : string) : M unit :=
  fun s0 =>
    let empty_dirs := find_empty_subdirs (fs_root s0) in
    (rmtree_all empty_dirs ;;;
     in_coll <- read_artifact ;;
     let all_items := map item_id in_coll in
     let rm_items := map (basename out_name) empty_dirs in
     all_items' <- remove_each rm_items all_items ;;
     let keep_items := filter (fun x => in_ids (item_id x) all_items') in_coll in
     write_artifact keep_items) s0.

(** There is an empty directory at the (non-root) relative path [r]. *)
Fixpoint empty_dir_at (r : list string) (cs : list entry) : Prop :=
  match r with
  | [] => False
  | [m] => In (DirE m []) cs
  | m :: r' => exists ch, In (DirE m ch) cs /\ empty_dir_at r' ch
  end.

(** The two parts of the walk of one directory at [here]: an empty
    subdirectory is appended, a non-empty one is walked. *)
Definition walk_kid (here : list string) (c : entry) : list (list string) :=
  match c with
  | DirE m (_ :: _) => walk_empty (here ++ [m]) c
  | _ => []
  end.

Definition empty_kid (here : list string) (c : entry) : list (list string) :=
  match c with
  | DirE m [] => [here ++ [m]]
  | _ => []
  end.

(** A file system never holds two entries of the same name in one
    directory. *)
Fixpoint names_unique (e : entry) : Prop :=
  match e with
  | FileE _ _ _ => True
  | DirE _ cs =>
      NoDup (map entry_name cs) /\
      (fix go (l : list entry) : Prop :=
         match l with
         | [] => True
         | c :: rest => names_unique c /\ go rest
         end) cs
  end.

(* ------------------------------------------------------------------ *)
(** ** Preview size estimate (lines 384-397) and [_sizeof_fmt] *)

(** [_get_dir_size]: the sizes of all files met by [os.walk], symbolic
    links skipped. *)
Fixpoint entry_size (e : entry) : Z :=
  match e with
  | FileE _ sz link => if link then 0%Z else sz
  | DirE _ cs =>
      (fix go (l : list entry) : Z :=
         match l with
         | [] => 0%Z
         | c :: rest => (entry_size c + go rest)%Z
         end) cs
  end.

Definition get_dir_size (cs : list entry) : Z :=
  fold_right (fun e acc => (entry_size e + acc)%Z) 0%Z cs.

(** [_get_dir_size(os.path.join(temp_dir, id))]: walking a path that is
    not a directory yields nothing, hence 0. *)
Definition sub_dir_size (cs : list entry) (name : string) : Z :=
  match find (fun e => match e with
                       | DirE m _ => String.eqb m name
                       | FileE _ _ _ => false
                       end) cs with
  | Some (DirE _ ch) => get_dir_size ch
  | _ => 0%Z
  end.

(** The preview directory after its cleanup: the artifact
    item-collection.json of [j] bytes, and a directory per kept item
    whose content [dir_of] gives by item id. *)
Definition preview_dir (j : Z) (dir_of : string -> list entry) (kept : list item)
    : list entry :=
  FileE default_file_name j false
    :: map (fun it => DirE (item_id it) (dir_of (item_id it))) kept.

Open Scope R_scope.

Definition sumR (xs : list R) : R := fold_right Rplus 0 xs.

(** [np.std]: the population standard deviation (ddof = 0). *)
Definition np_mean (xs : list R) : R := sumR xs / INR (List.length xs).
Definition np_std (xs : list R) : R :=
  sqrt (sumR (map (fun x => (x - np_mean xs) ^ 2) xs) / INR (List.length xs)).

(** A numpy float64: a finite value, an infinity or nan. *)
Inductive fval :=
| Fin (r : R)
| PInf
| NInf
| NaN.

(** [np.std(xs)]: nan (with a warning) for an empty list. *)
Definition np_std_f (xs : list R) : fval :=
  match xs with
  | [] => NaN
  | _ => Fin (np_std xs)
  end.

(** [c * x] for a float constant [c > 0] and a float64 [x]. *)
Definition f_scale (c : R) (x : fval) : fval :=
  match x with
  | Fin a => Fin (c * a)
  | y => y
  end.

(** [x / d] for a float64 [x] and a float [d >= 0]: numpy divides by
    [0.0] without raising, giving an infinity of the sign of [x], or nan
    for [0.0 / 0.0]. *)
Definition f_div (x : fval) (d : R) : fval :=
  match x with
  | Fin a =>
      if Req_EM_T d 0 then
        (if Rlt_dec 0 a then PInf else if Rlt_dec a 0 then NInf else NaN)
      else Fin (a / d)
  | y => y
  end.

(** [x * n] for a float64 [x] and an int [n >= 0]: an infinity times 0
    is nan. *)
Definition f_mul (x : fval) (n : R) : fval :=
  match x with
  | Fin a => Fin (a * n)
  | PInf => if Req_EM_T n 0 then NaN else PInf
  | NInf => if Req_EM_T n 0 then NaN else NInf
  | NaN => NaN
  end.

(** The estimate computed from the preview directory [tmp] (its entries
    after the preview's cleanup), the sample [pre_coll] and
    [len(self.item_coll)]: [Some (mean_size, ci_size)], or [None] where
    Python raises ZeroDivisionError: [n_items = 0] in the int division
    of [mean_size]. [ci_size] is a numpy float64 ([np.std] returns one),
    so its division by [(n_items - 1) ** 0.5 = 0.0] at [n_items = 1]
    does not raise but gives inf or nan. Finite float arithmetic is
    represented by exact real arithmetic. *)
Definition estimate (tmp : list entry) (pre_coll : list item) (n_total : nat)
    : option (R * fval) :=
  let n_items := List.length tmp in
  match n_items with
  | O => None
  | _ =>
      let mean_size := IZR (get_dir_size tmp) / INR n_items * INR n_total in
      let sizes := map (fun x => IZR (sub_dir_size tmp (item_id x))) pre_coll in
      let std_size := np_std_f sizes in
      let ci_size :=
        f_mul (f_div (f_scale (196 / 100) std_size) (sqrt (INR (n_items - 1))))
              (INR n_total) in
      Some (mean_size, ci_size)
  end.

(** The closed-form formulas of the specification (section 4.4), for
    comparison with [estimate]: [sizes] are the sampled items' sizes. *)
Definition spec_mean (sizes : list R) (n_total : nat) : R :=
  sumR sizes / INR (List.length sizes) * INR n_total / INR (List.length sizes).

Definition spec_ci95 (sizes : list R) (n_total : nat) : R :=
  196 / 100 * np_std sizes / sqrt (INR (List.length sizes - 1))
    * INR n_total / INR (List.length sizes).

(** [_sizeof_fmt(num)]: the number scaled by the first power of 1024
    that brings its magnitude below 1024, with its binary prefix; the
    [:.1f] rendering of the number is not represented. *)
Definition size_units : list string :=
  [""; "Ki"; "Mi"; "Gi"; "Ti"; "Pi"; "Ei"; "Zi"]%string.

Fixpoint sizeof_loop (units : list string) (num : R) : R * string :=
  match units with
  | [] => (num, "Yi"%string)
  | u :: rest =>
      if Rlt_dec (Rabs num) 1024 then (num, u)
      else sizeof_loop rest (num / 1024)
  end.

Definition sizeof_fmt (num : R) : R * string :=
  let '(v, u) := sizeof_loop size_units num in (v, (u ++ "B")%string).

Close Scope R_scope.

(* ------------------------------------------------------------------ *)
(** ** [Downloader._create_full_extent] and its helpers *)

(** [geom.bounds]: (minx, miny, maxx, maxy) over the vertices, [None]
    for an empty geometry. *)
Definition vertices (g : geometry) : list point := concat g.

Definition bbox := (Q * Q * Q * Q)%type.

Definition extend_bbox (b : bbox) (p : point) : bbox :=
  let '(x0, y0, x1, y1) := b in
  (Qmin x0 (px p), Qmin y0 (py p), Qmax x1 (px p), Qmax y1 (py p)).

Definition bounds (g : geometry) : option bbox :=
  match vertices g with
  | [] => None
  | p :: ps => Some (fold_left extend_bbox ps (px p, py p, px p, py p))
  end.

(** [unary_union(polygons)]: the union of the point sets, i.e. the
    polygons of all inputs together (the vertices of the dissolved
    result lie in the same bounding box). *)
Definition unary_union (gs : list geometry) : geometry := concat gs.

Record extent := mkExtent {
  spatial_bboxes : list (option bbox);
  temporal_intervals : list (Z * Z)
}.

(** Python's [min] and [max] over a non-empty list (the first extremal
    element is kept). *)
Definition py_min (d : Z) (ds : list Z) : Z :=
  fold_left (fun m x => if (x <? m)%Z then x else m) ds d.
Definition py_max (d : Z) (ds : list Z) : Z :=
  fold_left (fun m x => if (m <? x)%Z then x else m) ds d.

Section Extent.

(** [p.buffer(0)] of shapely (GEOS), an external library. *)
Variable buffer0 : geometry -> geometry.

(** [_get_spatial_extent]. *)
Definition get_spatial_extent (polygons : list geometry) : list (option bbox) :=
  let polygons' := map buffer0 polygons in
  [bounds (unary_union polygons')].

(** [_create_full_extent]; [min([])] raises ValueError ([None]). *)
Definition create_full_extent (stac_item_list : list item) : option extent :=
  let polygons := map item_geometry stac_item_list in
  let datetimes := map item_datetime stac_item_list in
  match datetimes with
  | [] => None
  | d :: ds =>
      Some (mkExtent (get_spatial_extent polygons) [(py_min d ds, py_max d ds)])
  end.

End Extent.

(** What a bounding box of a set of points is: it contains every point,
    and each of its four sides is attained by some point. *)
Definition is_bbox (ps : list point) (b : bbox) : Prop :=
  let '(x0, y0, x1, y1) := b in
  (forall p, In p ps ->
     (x0 <= px p)%Q /\ (y0 <= py p)%Q /\ (px p <= x1)%Q /\ (py p <= y1)%Q) /\
  (exists p, In p ps /\ (px p == x0)%Q) /\ (exists p, In p ps /\ (py p == y0)%Q) /\
  (exists p, In p ps /\ (px p == x1)%Q) /\ (exists p, In p ps /\ (py p == y1)%Q).

(** The closed ring of the unit square with lower-left corner (x, y). *)
Definition unit_square (x y : Q) : geometry :=
  [[{| px := x; py := y |}; {| px := x + 1; py := y |};
    {| px := x + 1; py := y + 1 |}; {| px := x; py := y + 1 |};
    {| px := x; py := y |}]].


(** The events of [k] consecutive failed signing calls after the first
    one of a streak: each is followed by the one-second sleep. *)
Fixpoint fail_trace (batch : list item) (k : nat) : list event :=
  match k with
  | O => []
  | S k' => SignCall batch false :: Sleep 1 :: fail_trace batch k'
  end.

(** The sizes of the batches passed to the signing calls of a trace. *)
Definition sign_call_sizes (evs : list event) : list nat :=
  flat_map (fun e => match e with
                     | SignCall b _ => [List.length b]
                     | _ => []
                     end) evs.

(** The slices [coll[i:i+b]] of the batch loop, for [i] in
    [range(0, len(coll), b)]. *)
Definition slices_of (coll : list item) (b : nat) : list (list item) :=
  map (fun i => py_slice coll i (i + b))
      (range_step_aux (List.length coll) 0 (List.length coll) b).

(** The per-batch artifacts written by the main phase, as entries of
    [out_dir], in batch order. *)
Definition batch_entries (outs : list (string * list item)) : store :=
  map (fun p => (fst p, ItemCollFile (snd p))) outs.

(** The items read from the artifact [f] of a store. *)
Definition listed_items (st : store) (f : string) : list item :=
  match store_lookup f st with
  | Some (ItemCollFile items) => items
  | _ => []
  end.

(* Two sample items and a 25-item collection for the concrete runs. *)
Definition mk_sample (k : nat) : item := mkItem (nat_to_string k) [] 0%Z.
Definition items25 : list item := map mk_sample (seq 0 25).

(* ------------------------------------------------------------------ *)
(** ** [_async_message_handling]: the size progress bar *)

(** What the handler sees at one [await messages.get()]: whether the
    message is [None], the [time.time()] read after it, and the value
    of [self._dir_size] (the last size sampled by [_calculate_dir_size])
    at that moment. Times are floats, represented as rationals. *)
Record observation := mkObs {
  obs_is_none : bool;
  obs_time : Q;
  obs_dir_size : Z
}.

(** The locals [last_checked] and [prev_size], the counter of
    [size_bar] (advanced by [size_bar.update]) and the times at which
    it was updated. *)
Record bar_state := mkBar {
  last_checked : Q;
  prev_size : Z;
  bar_n : Z;
  update_times : list Q
}.

(** The [while True] loop. On the [None] sentinel it returns its state
    and the messages left in the queue; [None] when the queue runs dry
    first (the handler is still waiting in [messages.get()]). *)
Fixpoint message_loop (interval : Q) (msgs : list observation) (s : bar_state)
    : option (bar_state * list observation) :=
  match msgs with
  | [] => None
  | o :: rest =>
      if obs_is_none o then Some (s, rest)
      else
        let current_time := obs_time o in
        if Qle_bool interval (current_time - last_checked s) then
          message_loop interval rest
            (mkBar current_time (obs_dir_size o)
                   (bar_n s + (obs_dir_size o - prev_size s))%Z
                   (update_times s ++ [current_time]))
        else message_loop interval rest s
  end.

(** [_async_message_handling(messages, total_files, directory,
    interval)] started at time [t0]: a fresh bar, [prev_size = 0]. *)
Definition message_handling (interval t0 : Q) (msgs : list observation)
    : option (bar_state * list observation) :=
  message_loop interval msgs (mkBar t0 0 0 []).

(** The update times are at least [interval] apart, the first one at
    least [interval] after [t0]. *)
Fixpoint spaced (interval t0 : Q) (ts : list Q) : Prop :=
  match ts with
  | [] => True
  | t :: ts' => (interval <= t - t0)%Q /\ spaced interval t ts'
  end.

(* ------------------------------------------------------------------ *)
(** ** [os.path] helpers *)

Fixpoint ends_with_slash (s : string) : bool :=
  match s with
  | EmptyString => false
  | String c EmptyString => Ascii.eqb c "/"%char
  | String _ rest => ends_with_slash rest
  end.

(** [os.path.join(a, b)] (posixpath). *)
Definition path_join (a b : string) : string :=
  if String.prefix "/" b then b
  else if String.eqb a "" then b
  else if ends_with_slash a then (a ++ b)%string
  else (a ++ "/" ++ b)%string.

(** [os.path.basename(p)]: what follows the last "/". *)
Fixpoint basename_aux (p cur : string) : string :=
  match p with
  | EmptyString => cur
  | String c rest =>
      if Ascii.eqb c "/"%char then basename_aux rest ""
      else basename_aux rest (cur ++ String c "")
  end.

Definition path_basename (p : string) : string := basename_aux p "".

Definition has_slash (s : string) : bool :=
  existsb (fun c => Ascii.eqb c "/"%char) (list_ascii_of_string s).

(* ------------------------------------------------------------------ *)
(** ** [Downloader._create_and_save_catalog], [_load_and_add_collection] *)

(** An entry of [root_dir] as the catalog step inspects it: a file, or
    a directory with the items of its item-collection.json ([None] when
    there is none). *)
Inductive cat_entry :=
| CatFile (name : string)
| CatDir (name : string) (coll : option (list item)).

Definition is_cat_dir (e : cat_entry) : bool :=
  match e with CatDir _ _ => true | CatFile _ => false end.

(** A [pystac.Collection] as built here: id, self href, extent, items
    and the self hrefs set on them. *)
Record collection := mkCollection {
  coll_id : string;
  coll_self_href : string;
  coll_extent : extent;
  coll_items : list item;
  coll_item_hrefs : list string
}.

(** The catalog's children so far and the item-collection.json files
    removed so far. *)
Definition cat_state := (list collection * list string)%type.

Section Catalog.

Variable buffer0 : geometry -> geometry.

(** [_load_and_add_collection(item_collection_path, output_path,
    catalog, coll_path)], [items] being the file's items. *)
Definition load_and_add_collection (item_collection_path : string)
    (items : list item) (coll_path : string) (st : cat_state)
    : outcome cat_state :=
  match create_full_extent buffer0 items with
  | None => Raised ValueError st
  | Some ext =>
      let collection_id := path_basename coll_path in
      let c := mkCollection collection_id item_collection_path ext items
                 (map (fun it => path_join coll_path (item_id it ++ ".json")) items) in
      Ok (fst st ++ [c], snd st ++ [item_collection_path])
  end.

(** [for coll_dir in [...dirs...]: if os.path.exists(...): ...] *)
Fixpoint catalog_loop (output_path : string) (dirs : list cat_entry)
    (st : cat_state) : outcome cat_state :=
  match dirs with
  | [] => Ok st
  | CatDir coll_dir (Some items) :: rest =>
      match load_and_add_collection
              (path_join (path_join output_path coll_dir) "item-collection.json")
              items (path_join output_path coll_dir) st with
      | Ok st' => catalog_loop output_path rest st'
      | Raised e st' => Raised e st'
      end
  | _ :: rest => catalog_loop output_path rest st
  end.

(** [_create_and_save_catalog(root_dir, ...)]: [root_coll] is the root
    item-collection.json ([None] when it does not exist), [listing] what
    [os.listdir(output_path)] returns. The final [normalize_hrefs],
    [make_all_asset_hrefs_relative] and [save] belong to pystac and are
    not represented. *)
Definition create_and_save_catalog (root_dir : string)
    (root_coll : option (list item)) (listing : list cat_entry)
    : outcome cat_state :=
  let output_path := root_dir in
  let r0 :=
    match root_coll with
    | Some items =>
        load_and_add_collection (path_join root_dir "item-collection.json")
          items "" ([], [])
    | None => Ok ([], [])
    end in
  match r0 with
  | Raised e st => Raised e st
  | Ok st => catalog_loop output_path (filter is_cat_dir listing) st
  end.

End Catalog.

(** The directory names of a listing that hold an item-collection.json,
    with its items, in listing order. *)
Definition coll_dirs (listing : list cat_entry) : list (string * list item) :=
  flat_map (fun e => match e with
                     | CatDir d (Some items) => [(d, items)]
                     | _ => []
                     end) listing.

(* ------------------------------------------------------------------ *)
(** ** [Downloader._download_grouped] *)

(** Sorting the group keys: insertion into a sorted list. *)
Fixpoint insert_key (k : string) (l : list string) : list string :=
  match l with
  | [] => [k]
  | h :: t => if String.leb k h then k :: l else h :: insert_key k t
  end.

Definition sort_keys (l : list string) : list string := fold_right insert_key [] l.

Section Grouped.

(** [x.get_collection().id], read by pystac from the item's links. *)
Variable coll_of : item -> string.

(** [items_df.reset_index().groupby("collection").agg(list)...]: one row
    per distinct collection id, in sorted order ([groupby] sorts its
    keys by default), holding the row indices of its items in their
    original order; [.assign(item=...)] maps the indices back to the
    items of [self.item_coll]. *)
Definition grouped_df (item_coll : list item) : list (string * list item) :=
  map (fun k => (k, filter (fun x => String.eqb (coll_of x) k) item_coll))
      (sort_keys (nodup string_dec (map coll_of item_coll))).

(** The [_STACDownloader]s run in turn by [_download_grouped]: the
    [out_dir] and the items of each. *)
Definition download_grouped (out_dir : string) (item_coll : list item)
    : list (string * list item) :=
  map (fun row => (path_join out_dir (fst row), snd row)) (grouped_df item_coll).

End Grouped.

(* ------------------------------------------------------------------ *)
(** ** Where the fetches of a trace write *)

(** The destination directory, file name and item ids of each fetch. *)
Definition fetch_targets (evs : list event) : list (string * string * list string) :=
  flat_map (fun e => match e with
                     | Fetch d f b => [(d, f, map item_id b)]
                     | _ => []
                     end) evs.

(* ================================================================== *)
(** * Properties *)

Open Scope nat_scope.

(* ------------------------------------------------------------------ *)
(** ** The retry loop *)

(** [ratio == 1.0] holds exactly when every requested item was
    retrieved. *)
Lemma ratio_of_one_iff (got req : nat) :
  (0 < req)%nat -> Qeq_bool (ratio_of got req) 1 = true <-> got = req.
Proof.
  intros Hreq. rewrite Qeq_bool_iff.
  unfold ratio_of, Qeq, Qdiv, Qmult, Qinv, inject_Z. simpl.
  destruct req as [|r]; [lia|].
  rewrite Nat2Z.inj_succ. destruct (Z.succ (Z.of_nat r)) eqn:E; try lia.
  simpl. rewrite Z.mul_1_r. split; intros H; lia.
Qed.

Section RunLoop.

Variable attempt : nat -> list item -> option nat.
Variable item_coll : list item.
Variable retries : Z.
Variable got : nat -> nat.
Hypothesis attempt_returns : forall i, attempt i item_coll = Some (got i).
Hypothesis item_coll_nonempty : item_coll <> [].

Lemma run_loop_spec : forall k i s, (1 <= k)%nat ->
  exists m s', run_loop attempt item_coll retries i k s = Ok s' /\
    (1 <= m <= k)%nat /\
    rs_calls s' = rs_calls s ++ repeat item_coll m /\
    (forall j, (i <= j < i + m - 1)%nat ->
       Qeq_bool (ratio_of (got j) (List.length item_coll)) 1 = false) /\
    ((m < k)%nat ->
       Qeq_bool (ratio_of (got (i + m - 1)) (List.length item_coll)) 1 = true) /\
    rs_coll s' = Some (got (i + m - 1)) /\
    rs_ratio s' = Some (ratio_of (got (i + m - 1)) (List.length item_coll)).
Proof.
  induction k as [|k IH]; intros i s Hk; [lia|].
  simpl. rewrite attempt_returns.
  destruct (List.length item_coll) as [|n] eqn:Hn.
  { destruct item_coll; [congruence | discriminate]. }
  replace (i + 1 - 1)%nat with i by lia.
  destruct (Qeq_bool (ratio_of (got i) (S n)) 1) eqn:Hr.
  - exists 1%nat. eexists. split; [reflexivity|].
    cbn. rewrite Nat.add_sub.
    repeat split; auto; try lia.
  - destruct k as [|k].
    + destruct (Z.of_nat i <? retries - 1)%Z; exists 1%nat; eexists;
        (split; [reflexivity|]);
        cbn; rewrite Nat.add_sub; repeat split; auto; try lia.
    + destruct (Z.of_nat i <? retries - 1)%Z;
      [ destruct (IH (S i) (rs_print RetryLine (rs_set_ratio (ratio_of (got i) (S n))
          (rs_set_coll (got i) (rs_attempt item_coll (rs_print (LoopLine i) s))))))
          as (m & s' & Hrun & Hm & Hcalls & Hbefore & Hstop & Hcoll & Hratio); [lia|]
      | destruct (IH (S i) (rs_print NotAllLine (rs_set_ratio (ratio_of (got i) (S n))
          (rs_set_coll (got i) (rs_attempt item_coll (rs_print (LoopLine i) s))))))
          as (m & s' & Hrun & Hm & Hcalls & Hbefore & Hstop & Hcoll & Hratio); [lia|] ];
      exists (S m), s'; rewrite Hrun;
      (split; [reflexivity|]);
      replace (i + S m - 1)%nat with (S i + m - 1)%nat by lia;
      (split; [lia|]);
      (split; [rewrite Hcalls; cbn; rewrite <- app_assoc; reflexivity|]);
      (split; [intros j Hj; destruct (Nat.eq_dec j i) as [->|Hji];
               [exact Hr | apply Hbefore; lia] |]);
      (split; [intros Hmk; apply Hstop; lia|]);
      split; assumption.
Qed.

End RunLoop.

(** Claim C1 (amended): with a retry budget [retries >= 1], a non-empty
    collection and attempts that return normally, [run] starts every
    attempt on the original collection, stops after the first attempt
    whose ratio equals 1.0 or after [retries] attempts, returns
    normally, and the reported ratio is the one of the last attempt. *)
Theorem run_retry_loop (attempt : nat -> list item -> option nat)
    (item_coll : list item) (retries : Z) (got : nat -> nat) :
  (1 <= retries)%Z ->
  item_coll <> [] ->
  (forall i, attempt i item_coll = Some (got i)) ->
  exists k s,
    run attempt item_coll retries = Ok s /\
    (1 <= k <= Z.to_nat retries)%nat /\
    rs_calls s = repeat item_coll k /\
    (forall j, (j < k - 1)%nat ->
       Qeq_bool (ratio_of (got j) (List.length item_coll)) 1 = false) /\
    ((k < Z.to_nat retries)%nat ->
       Qeq_bool (ratio_of (got (k - 1)%nat) (List.length item_coll)) 1 = true) /\
    rs_ratio s = Some (ratio_of (got (k - 1)%nat) (List.length item_coll)) /\
    exists pre, rs_out s =
      pre ++ [DownloadedLine (got (k - 1)%nat) (List.length item_coll);
              SuccessLine (ratio_of (got (k - 1)%nat) (List.length item_coll))].
Proof.
  intros Hret Hne Hatt.
  destruct (run_loop_spec attempt item_coll retries got Hatt Hne
              (Z.to_nat retries) 0 run_init) as
    (m & s' & Hrun & Hm & Hcalls & Hbefore & Hstop & Hcoll & Hratio); [lia|].
  unfold run. rewrite Hrun, Hcoll, Hratio.
  rewrite Nat.add_0_l in *.
  exists m. eexists. split; [reflexivity|].
  split; [lia|].
  split; [cbn; rewrite Hcalls; reflexivity|].
  split; [intros j Hj; apply Hbefore; lia|].
  split; [exact Hstop|].
  split; [cbn; rewrite Hratio; reflexivity|].
  exists (rs_out s'). cbn. rewrite <- app_assoc. reflexivity.
Qed.

Lemma run_retry_loop_witness :
  (1 <= 3)%Z /\ [mk_sample 0; mk_sample 1] <> [] /\
  exists k s,
    run (fun i _ => Some (if i =? 0 then 1 else 2)%nat) [mk_sample 0; mk_sample 1] 3
      = Ok s /\ (1 <= k <= Z.to_nat 3)%nat /\
    rs_calls s = repeat [mk_sample 0; mk_sample 1] k /\
    (forall j, (j < k - 1)%nat ->
       Qeq_bool (ratio_of ((fun i => if i =? 0 then 1 else 2)%nat j) 2) 1 = false) /\
    ((k < Z.to_nat 3)%nat ->
       Qeq_bool (ratio_of ((fun i => if i =? 0 then 1 else 2)%nat (k - 1)%nat) 2) 1 = true) /\
    rs_ratio s = Some (ratio_of ((fun i => if i =? 0 then 1 else 2)%nat (k - 1)%nat) 2) /\
    exists pre, rs_out s =
      pre ++ [DownloadedLine ((fun i => if i =? 0 then 1 else 2)%nat (k - 1)%nat) 2;
              SuccessLine (ratio_of ((fun i => if i =? 0 then 1 else 2)%nat (k - 1)%nat) 2)].
Proof.
  split; [lia|]. split; [discriminate|].
  apply (run_retry_loop (fun i _ => Some (if i =? 0 then 1 else 2)%nat)
           [mk_sample 0; mk_sample 1] 3 (fun i => if i =? 0 then 1 else 2)%nat).
  - lia.
  - discriminate.
  - intros i. reflexivity.
Defined.

(** Claim C1, counterexample: "for every item collection and retry
    budget" fails: with a budget of 0 the run raises UnboundLocalError,
    and with an empty collection it raises ZeroDivisionError. *)
Lemma run_retry_loop_counterexample :
  run (fun _ _ => Some 1%nat) [mk_sample 0] 0 = Raised UnboundLocalError run_init /\
  exists s, run (fun _ _ => Some 0%nat) [] 3 = Raised ZeroDivisionError s.
Proof.
  split; [reflexivity|]. eexists. reflexivity.
Qed.

(** Claim C9: [run] returns normally only when [retries >= 1]; with
    [retries = 0] it starts no attempt and raises UnboundLocalError at
    the summary print, [coll] and [ratio] being unbound. *)
Theorem run_zero_retries_unbound (attempt : nat -> list item -> option nat)
    (item_coll : list item) :
  (forall (retries : Z) s, run attempt item_coll retries = Ok s -> (1 <= retries)%Z) /\
  run attempt item_coll 0 = Raised UnboundLocalError run_init /\
  rs_calls run_init = [].
Proof.
  split; [|split; reflexivity].
  intros retries s H.
  destruct (Z_le_gt_dec 1 retries) as [|Hlt]; [assumption|].
  unfold run in H. replace (Z.to_nat retries) with 0%nat in H by lia.
  cbn in H. discriminate H.
Qed.

Lemma run_zero_retries_unbound_witness :
  (forall (retries : Z) s,
     run (fun _ _ => Some 1%nat) [mk_sample 0] retries = Ok s -> (1 <= retries)%Z) /\
  run (fun _ _ => Some 1%nat) [mk_sample 0] 0 = Raised UnboundLocalError run_init /\
  rs_calls run_init = [].
Proof. apply (run_zero_retries_unbound (fun _ _ => Some 1%nat) [mk_sample 0]). Defined.

(* ------------------------------------------------------------------ *)
(** ** The re-signing loop *)

Lemma sign_loop_streak_on_hold (fuel : nat) (ok : nat -> bool) (c h k : nat)
    (batch : list item) :
  (1 <= h)%nat ->
  (forall j, (j < k)%nat -> ok (c + j)%nat = false) ->
  ok (c + k)%nat = true -> (k < fuel)%nat ->
  sign_loop fuel ok c h batch =
    (fail_trace batch k ++ [SignCall batch true], Some (S (c + k), (h + k)%nat)).
Proof.
  revert fuel c h. induction k as [|k IH]; intros fuel c h Hh Hfail Hok Hk.
  - destruct fuel as [|f]; [lia|]. cbn. rewrite Nat.add_0_r in Hok.
    rewrite Hok, !Nat.add_0_r. reflexivity.
  - destruct fuel as [|f]; [lia|]. cbn.
    pose proof (Hfail 0%nat ltac:(lia)) as H0. rewrite Nat.add_0_r in H0.
    rewrite H0.
    rewrite (IH f (S c) (S h)); [| lia | | |].
    + destruct h as [|h]; [lia|]. cbn.
      rewrite !Nat.add_succ_r. reflexivity.
    + intros j Hj. replace (S c + j)%nat with (c + S j)%nat by lia.
      apply Hfail. lia.
    + replace (S c + k)%nat with (c + S k)%nat by lia. exact Hok.
    + lia.
Qed.

Lemma sign_loop_blocked_on_hold (fuel : nat) (ok : nat -> bool) (c h : nat)
    (batch : list item) :
  (1 <= h)%nat ->
  (forall j, (j < fuel)%nat -> ok (c + j)%nat = false) ->
  sign_loop fuel ok c h batch = (fail_trace batch fuel, None).
Proof.
  revert c h. induction fuel as [|f IH]; intros c h Hh Hfail; [reflexivity|].
  cbn. pose proof (Hfail 0%nat ltac:(lia)) as H0. rewrite Nat.add_0_r in H0.
  rewrite H0, (IH (S c) (S h)); [| lia |].
  - destruct h as [|h]; [lia|]. reflexivity.
  - intros j Hj. replace (S c + j)%nat with (c + S j)%nat by lia. apply Hfail. lia.
Qed.

Lemma batch_loop_not_raised (fuel : nat) (ok : nat -> bool) (r : option nat)
    (dest : string) (named : bool) (coll : list item) (bs : nat) (starts : list nat)
    (c : nat) (e : py_exn) :
  snd (batch_loop fuel ok r dest named coll bs starts c) <> PhaseRaised e.
Proof.
  revert c. induction starts as [|i rest IH]; intros c; cbn; [discriminate|].
  destruct r as [x|].
  - destruct (resign fuel ok c _) as [e1 [c'|]]; [|discriminate].
    specialize (IH c').
    destruct (batch_loop fuel ok (Some x) dest named coll bs rest c'). exact IH.
  - specialize (IH c).
    destruct (batch_loop fuel ok None dest named coll bs rest c). exact IH.
Qed.

(** Claim C7: a signing failure never fails the run. After a streak of
    [k >= 1] failed calls the loop has logged "paused" once (after the
    first failure), slept one second after each failure, and, when the
    next call succeeds, logs the "continued" line once; as long as calls
    fail the loop keeps retrying; no phase ends by raising from the
    signing loop. *)
Theorem resign_pause_resume :
  (forall (fuel : nat) (ok : nat -> bool) (c k : nat) (batch : list item),
     (forall j, (j < k)%nat -> ok (c + j)%nat = false) ->
     ok (c + k)%nat = true -> (k < fuel)%nat ->
     resign fuel ok c batch =
       (match k with
        | O => [SignCall batch true]
        | S k' => SignCall batch false :: Paused :: Sleep 1 ::
                    fail_trace batch k' ++ [SignCall batch true; Resumed]
        end, Some (S (c + k)))) /\
  (forall (fuel : nat) (ok : nat -> bool) (c : nat) (batch : list item),
     (forall j, (j < S fuel)%nat -> ok (c + j)%nat = false) ->
     resign (S fuel) ok c batch =
       (SignCall batch false :: Paused :: Sleep 1 :: fail_trace batch fuel, None)) /\
  (forall fuel ok r dest named coll bs starts c e,
     snd (batch_loop fuel ok r dest named coll bs starts c) <> PhaseRaised e).
Proof.
  split; [|split].
  - intros fuel ok c k batch Hfail Hok Hk. unfold resign.
    destruct k as [|k].
    + destruct fuel as [|f]; [lia|]. cbn. rewrite Nat.add_0_r in Hok.
      rewrite Hok, Nat.add_0_r. reflexivity.
    + destruct fuel as [|f]; [lia|]. cbn.
      pose proof (Hfail 0%nat ltac:(lia)) as H0. rewrite Nat.add_0_r in H0.
      rewrite H0.
      rewrite (sign_loop_streak_on_hold f ok (S c) 1 k batch); [| lia | | | lia].
      * cbn. rewrite <- app_assoc, !Nat.add_succ_r. reflexivity.
      * intros j Hj. replace (S c + j)%nat with (c + S j)%nat by lia. apply Hfail. lia.
      * replace (S c + k)%nat with (c + S k)%nat by lia. exact Hok.
  - intros fuel ok c batch Hfail. unfold resign. cbn.
    pose proof (Hfail 0%nat ltac:(lia)) as H0. rewrite Nat.add_0_r in H0.
    rewrite H0, (sign_loop_blocked_on_hold fuel ok (S c) 1); [reflexivity | lia |].
    intros j Hj. replace (S c + j)%nat with (c + S j)%nat by lia. apply Hfail. lia.
  - intros. apply batch_loop_not_raised.
Qed.

Lemma resign_pause_resume_witness :
  resign 5 (fun c => 2 <=? c) 0 [mk_sample 0] =
    (SignCall [mk_sample 0] false :: Paused :: Sleep 1 ::
       fail_trace [mk_sample 0] 1 ++ [SignCall [mk_sample 0] true; Resumed], Some 3%nat).
Proof.
  apply (proj1 resign_pause_resume 5 (fun c => 2 <=? c) 0 2 [mk_sample 0]).
  - intros j Hj. cbn. destruct j as [|[|j]]; [reflexivity | reflexivity | lia].
  - reflexivity.
  - lia.
Defined.

(* ------------------------------------------------------------------ *)
(** ** Batches *)

Lemma sign_loop_milestones (fuel : nat) (ok : nat -> bool) (c h : nat)
    (batch : list item) (evs : list event) (x : nat * nat) :
  sign_loop fuel ok c h batch = (evs, Some x) -> milestones evs = [Signed batch].
Proof.
  revert c h evs. induction fuel as [|f IH]; intros c h evs H; cbn in H;
    [discriminate|].
  destruct (ok c).
  - injection H as <- _. reflexivity.
  - destruct (sign_loop f ok (S c) (S h) batch) as [evs' r] eqn:E.
    injection H as <- ->.
    unfold milestones. cbn [flat_map]. rewrite flat_map_app.
    destruct (h =? 0); cbn; fold (milestones evs'); apply (IH _ _ _ E).
Qed.

Lemma resign_milestones (fuel : nat) (ok : nat -> bool) (c : nat)
    (batch : list item) (evs : list event) (c' : nat) :
  resign fuel ok c batch = (evs, Some c') -> milestones evs = [Signed batch].
Proof.
  unfold resign. destruct (sign_loop fuel ok c 0 batch) as [e [[c1 h]|]] eqn:E;
    intros H; [|discriminate].
  injection H as <- _. unfold milestones. rewrite flat_map_app.
  fold (milestones e). rewrite (sign_loop_milestones _ _ _ _ _ _ _ E).
  destruct (h =? 0); reflexivity.
Qed.

Lemma batch_loop_milestones (fuel : nat) (ok : nat -> bool) (x : nat) (dest : string)
    (named : bool) (coll : list item) (bs : nat) (starts : list nat)
    (c : nat) (evs : list event) (c' : nat) :
  batch_loop fuel ok (Some x) dest named coll bs starts c = (evs, PhaseDone c') ->
  milestones evs =
    flat_map (fun i => [Signed (py_slice coll i (i + bs));
                        Fetched (py_slice coll i (i + bs))]) starts.
Proof.
  revert c evs. induction starts as [|i rest IH]; intros c evs H;
    cbn [batch_loop] in H.
  - injection H as <-. reflexivity.
  - destruct (resign fuel ok c (py_slice coll i (i + bs))) as [e1 [c1|]] eqn:E1;
      [|discriminate].
    destruct (batch_loop fuel ok (Some x) dest named coll bs rest c1) as [e2 r2] eqn:E2.
    injection H as <- ->.
    unfold milestones. rewrite flat_map_app. cbn [flat_map].
    fold (milestones e1). fold (milestones e2).
    rewrite (resign_milestones _ _ _ _ _ _ E1), (IH _ _ E2). reflexivity.
Qed.

Lemma range_concat (coll : list item) (b fuel start : nat) :
  (1 <= b)%nat -> (List.length coll - start <= fuel)%nat ->
  concat (map (fun i => py_slice coll i (i + b))
              (range_step_aux fuel start (List.length coll) b)) = skipn start coll.
Proof.
  revert start. induction fuel as [|f IH]; intros start Hb Hf;
    cbn [range_step_aux].
  - symmetry. apply skipn_all2. cbn. lia.
  - destruct (start <? List.length coll) eqn:Hlt.
    + apply Nat.ltb_lt in Hlt. cbn [map concat]. rewrite IH by lia.
      unfold py_slice. replace (start + b - start)%nat with b by lia.
      rewrite Nat.add_comm, <- skipn_skipn. apply firstn_skipn.
    + apply Nat.ltb_ge in Hlt. symmetry. apply skipn_all2. lia.
Qed.

Lemma range_length (n b fuel start : nat) :
  (1 <= b)%nat -> (n - start <= fuel)%nat ->
  List.length (range_step_aux fuel start n b) = ((n - start + b - 1) / b)%nat.
Proof.
  revert start. induction fuel as [|f IH]; intros start Hb Hf;
    cbn [range_step_aux].
  - replace (n - start)%nat with 0%nat by lia. cbn [List.length].
    symmetry. apply Nat.div_small. lia.
  - destruct (start <? n) eqn:Hlt.
    + apply Nat.ltb_lt in Hlt. cbn [List.length]. rewrite IH by lia.
      destruct (Nat.le_gt_cases b (n - start)) as [Hge|Hlt'].
      * assert (E : (n - start + b - 1 = (n - (start + b) + b - 1) + 1 * b)%nat) by lia.
        rewrite E, Nat.div_add by lia. lia.
      * replace (n - (start + b))%nat with 0%nat by lia.
        rewrite Nat.div_small by lia.
        apply (Nat.div_unique _ _ 1 (n - start - 1)); lia.
    + apply Nat.ltb_ge in Hlt. replace (n - start)%nat with 0%nat by lia.
      cbn [List.length]. symmetry. apply Nat.div_small. lia.
Qed.

Lemma range_in_bounds (n b fuel start i : nat) :
  In i (range_step_aux fuel start n b) -> (start <= i < n)%nat.
Proof.
  revert start. induction fuel as [|f IH]; intros start H;
    cbn [range_step_aux] in H; [contradiction|].
  destruct (start <? n) eqn:Hlt; [|contradiction].
  apply Nat.ltb_lt in Hlt. destruct H as [<-|H]; [lia|].
  apply IH in H. lia.
Qed.

Lemma range_removelast_full (n b fuel start i : nat) :
  In i (removelast (range_step_aux fuel start n b)) -> (i + b < n)%nat.
Proof.
  revert start. induction fuel as [|f IH]; intros start H;
    cbn [range_step_aux] in H; [contradiction|].
  destruct (start <? n) eqn:Hlt; [|contradiction].
  destruct (range_step_aux f (start + b) n b) as [|j rest] eqn:E; [contradiction|].
  destruct H as [<-|H].
  - assert (Hj : In j (range_step_aux f (start + b) n b)) by (rewrite E; left; reflexivity).
    apply range_in_bounds in Hj. lia.
  - apply (IH (start + b)). rewrite E. exact H.
Qed.

Lemma removelast_map_comm {A B} (f : A -> B) (l : list A) :
  removelast (map f l) = map f (removelast l).
Proof.
  induction l as [|x l IH]; [reflexivity|].
  destruct l as [|y l]; [reflexivity|].
  change (removelast (map f (x :: y :: l))) with (f x :: removelast (map f (y :: l))).
  rewrite IH. reflexivity.
Qed.

Lemma slice_length (coll : list item) (i b : nat) :
  List.length (py_slice coll i (i + b)) = Nat.min b (List.length coll - i).
Proof.
  unfold py_slice. replace (i + b - i)%nat with b by lia.
  rewrite length_firstn, length_skipn. reflexivity.
Qed.

(** Claim C2 (amended): for [b >= 1], the main phase of an attempt cuts
    the collection into ceil(N/b) contiguous slices (sizes between 1 and
    [b], all but the last of size [b]) that concatenate back to the
    collection, and each slice is signed successfully exactly once,
    right before its fetch. Before it, the attempt's preview phase signs
    the sample's own slices: a 25-item collection with [b = 10] and the
    default preview size 10 makes 4 signing calls, of sizes 10, 10, 10
    and 5, when no call fails. *)
Theorem main_phase_batches (fuel : nat) (ok : nat -> bool) (b : nat)
    (coll : list item) (c : nat) (evs : list event) (c' : nat) :
  1 <= b ->
  download_phase fuel ok (Some b) "out_dir" true coll c = (evs, PhaseDone c') ->
  concat (slices_of coll b) = coll /\
  List.length (slices_of coll b) = (List.length coll + b - 1) / b /\
  Forall (fun s => 1 <= List.length s <= b) (slices_of coll b) /\
  Forall (fun s => List.length s = b) (removelast (slices_of coll b)) /\
  milestones evs = flat_map (fun s => [Signed s; Fetched s]) (slices_of coll b) /\
  sign_call_sizes
    (fst (download_events 1 (fun _ => true) 10 (Some 10) items25 (firstn 10 items25)))
    = [10; 10; 10; 5].
Proof.
  intros Hb H.
  destruct b as [|b']; [lia|].
  cbv [download_phase py_range batch_size_of Nat.eqb] in H.
  set (b := S b') in *.
  unfold slices_of.
  split; [|split; [|split; [|split; [|split]]]].
  - rewrite range_concat by lia. reflexivity.
  - rewrite length_map, range_length by lia. rewrite Nat.sub_0_r. reflexivity.
  - apply Forall_forall. intros s Hs. apply in_map_iff in Hs.
    destruct Hs as (i & <- & Hi). apply range_in_bounds in Hi.
    rewrite slice_length. lia.
  - rewrite removelast_map_comm. apply Forall_forall. intros s Hs.
    apply in_map_iff in Hs. destruct Hs as (i & <- & Hi).
    apply range_removelast_full in Hi. rewrite slice_length. lia.
  - rewrite (batch_loop_milestones _ _ _ _ _ _ _ _ _ _ _ H).
    rewrite !flat_map_concat_map, map_map. reflexivity.
  - vm_compute. reflexivity.
Qed.

Lemma main_phase_batches_witness :
  1 <= 10 /\
  download_phase 1 (fun _ => true) (Some 10) "out_dir" true items25 0 =
    (fst (download_phase 1 (fun _ => true) (Some 10) "out_dir" true items25 0),
     PhaseDone 3) /\
  concat (slices_of items25 10) = items25 /\
  List.length (slices_of items25 10) = (List.length items25 + 10 - 1) / 10 /\
  Forall (fun s => 1 <= List.length s <= 10) (slices_of items25 10) /\
  Forall (fun s => List.length s = 10) (removelast (slices_of items25 10)) /\
  milestones (fst (download_phase 1 (fun _ => true) (Some 10) "out_dir" true items25 0))
    = flat_map (fun s => [Signed s; Fetched s]) (slices_of items25 10) /\
  sign_call_sizes
    (fst (download_events 1 (fun _ => true) 10 (Some 10) items25 (firstn 10 items25)))
    = [10; 10; 10; 5].
Proof.
  assert (Hrun : download_phase 1 (fun _ => true) (Some 10) "out_dir" true items25 0 =
    (fst (download_phase 1 (fun _ => true) (Some 10) "out_dir" true items25 0),
     PhaseDone 3)) by (vm_compute; reflexivity).
  split; [lia|]. split; [exact Hrun|].
  exact (main_phase_batches 1 (fun _ => true) 10 items25 0 _ 3 ltac:(lia) Hrun).
Defined.

(** Claim C2, counterexample: an attempt on a 25-item collection with
    [b = 10] (default preview size 10, no signing failure) makes four
    signing calls, not three: the preview sample is signed first. *)
Lemma main_phase_batches_counterexample :
  sign_call_sizes
    (fst (download_events 1 (fun _ => true) 10 (Some 10) items25 (firstn 10 items25)))
    = [10; 10; 10; 5] /\
  List.length (sign_call_sizes
    (fst (download_events 1 (fun _ => true) 10 (Some 10) items25 (firstn 10 items25))))
    <> 3.
Proof. vm_compute. split; [reflexivity | discriminate]. Qed.

(* ------------------------------------------------------------------ *)
(** ** Re-signing disabled *)

Lemma batch_loop_none_no_sign (fuel : nat) (ok : nat -> bool) (dest : string)
    (named : bool) (coll : list item) (bs : nat) (starts : list nat) (c : nat) :
  sign_call_sizes (fst (batch_loop fuel ok None dest named coll bs starts c)) = [] /\
  snd (batch_loop fuel ok None dest named coll bs starts c) = PhaseDone c.
Proof.
  induction starts as [|i rest IH]; [split; reflexivity|].
  cbn [batch_loop].
  destruct (batch_loop fuel ok None dest named coll bs rest c) as [e2 r2].
  destruct IH as [IH1 IH2]. cbn [fst snd] in *. split; [|exact IH2].
  exact IH1.
Qed.

Lemma range_single (n : nat) : 1 <= n -> range_step_aux n 0 n n = [0].
Proof.
  intros Hn. destruct n as [|m]; [lia|]. simpl range_step_aux.
  destruct m as [|m]; [reflexivity|]. simpl range_step_aux.
  rewrite Nat.ltb_irrefl. reflexivity.
Qed.

Lemma download_phase_none_no_sign (fuel : nat) (ok : nat -> bool) (dest : string)
    (named : bool) (coll : list item) (c : nat) :
  sign_call_sizes (fst (download_phase fuel ok None dest named coll c)) = [].
Proof.
  unfold download_phase.
  destruct (py_range (List.length coll) (batch_size_of None (List.length coll)));
    [apply batch_loop_none_no_sign | reflexivity].
Qed.

(** Claim C3 (amended): with re-signing disabled ([None]), the main
    phase processes a non-empty collection as one batch, the whole
    collection, fetched without any signing call; no signing call is
    made anywhere in the attempt (preview included). *)
Theorem no_reauth_single_unsigned_batch (fuel : nat) (ok : nat -> bool)
    (coll : list item) (c : nat) :
  coll <> [] ->
  download_phase fuel ok None "out_dir" true coll c =
    ([Fetch "out_dir" (batch_file_name 0) coll], PhaseDone c) /\
  (forall (preview_size : nat) (pre_coll : list item),
     sign_call_sizes (fst (download_events fuel ok preview_size None coll pre_coll)) = []).
Proof.
  intros Hne. split.
  - assert (Hn : 1 <= List.length coll) by (destruct coll; [congruence | cbn; lia]).
    unfold download_phase, batch_size_of, py_range.
    replace (List.length coll =? 0) with false
      by (symmetry; apply Nat.eqb_neq; lia).
    rewrite range_single by exact Hn. cbn [batch_loop].
    unfold py_slice. rewrite Nat.add_0_l, Nat.sub_0_r, skipn_O, firstn_all. reflexivity.
  - intros preview_size pre_coll. unfold download_events.
    destruct (preview_size <=? List.length coll).
    + destruct (download_phase fuel ok None "temp_dir" false pre_coll 0) as [e0 r0] eqn:E0.
      pose proof (download_phase_none_no_sign fuel ok "temp_dir" false pre_coll 0) as H0.
      rewrite E0 in H0. cbn [fst] in H0.
      destruct r0; cbn [fst]; try exact H0.
      destruct (download_phase fuel ok None "out_dir" true coll c0) as [e1 r1] eqn:E1.
      pose proof (download_phase_none_no_sign fuel ok "out_dir" true coll c0) as H1.
      rewrite E1 in H1. cbn [fst] in *.
      unfold sign_call_sizes in *. rewrite flat_map_app, H0, H1. reflexivity.
    + destruct (download_phase fuel ok None "out_dir" true coll 0) as [e1 r1] eqn:E1.
      pose proof (download_phase_none_no_sign fuel ok "out_dir" true coll 0) as H1.
      rewrite E1 in H1. exact H1.
Qed.

Lemma no_reauth_single_unsigned_batch_witness :
  let coll := [mk_sample 0; mk_sample 1; mk_sample 2; mk_sample 3; mk_sample 4] in
  coll <> [] /\
  download_phase 1 (fun _ => true) None "out_dir" true coll 0 =
    ([Fetch "out_dir" (batch_file_name 0) coll], PhaseDone 0) /\
  (forall (preview_size : nat) (pre_coll : list item),
     sign_call_sizes
       (fst (download_events 1 (fun _ => true) preview_size None coll pre_coll))
     = []).
Proof.
  intros coll. split; [discriminate|].
  apply (no_reauth_single_unsigned_batch 1 (fun _ => true) coll 0).
  discriminate.
Defined.

(** Claim C3, counterexample: with re-signing disabled the single batch
    is never signed (zero signing calls, not one). *)
Lemma no_reauth_single_unsigned_batch_counterexample :
  sign_call_sizes
    (fst (download_events 1 (fun _ => true) 10 None [mk_sample 0] [])) = [] /\
  sign_call_sizes
    (fst (download_events 1 (fun _ => true) 10 None [mk_sample 0] [])) <> [1].
Proof. vm_compute. split; [reflexivity | discriminate]. Qed.

(* ------------------------------------------------------------------ *)
(** ** Merge of the per-batch artifacts *)

Lemma store_lookup_remove_same (f : string) (st : store) :
  store_lookup f (store_remove f st) = None.
Proof.
  unfold store_lookup, store_remove. induction st as [|[g c] st IH]; [reflexivity|].
  cbn [filter fst]. destruct (String.eqb g f) eqn:E; cbn [negb]; [exact IH|].
  cbn [find fst]. rewrite E. exact IH.
Qed.

Lemma store_lookup_remove_other (f g : string) (st : store) :
  f <> g -> store_lookup f (store_remove g st) = store_lookup f st.
Proof.
  intros Hfg. unfold store_lookup, store_remove.
  induction st as [|[h c] st IH]; [reflexivity|].
  cbn [filter fst find]. destruct (String.eqb h g) eqn:Eg; cbn [negb].
  - apply String.eqb_eq in Eg. subst h.
    assert (Ef : String.eqb g f = false) by (apply String.eqb_neq; congruence).
    cbn [fst]. rewrite Ef. exact IH.
  - cbn [find fst]. destruct (String.eqb h f); [reflexivity | exact IH].
Qed.

Lemma store_lookup_save_same (n : string) (c : content) (st : store) :
  store_lookup n (store_save n c st) = Some c.
Proof.
  unfold store_save. destruct (existsb _ st) eqn:Ex.
  - unfold store_lookup. induction st as [|[g d] st IH]; [discriminate|].
    cbn [map find fst]. destruct (String.eqb g n) eqn:E.
    + cbn [fst]. rewrite String.eqb_refl. reflexivity.
    + cbn [fst]. rewrite E. cbn [existsb fst] in Ex. rewrite E in Ex. apply IH, Ex.
  - unfold store_lookup. induction st as [|[g d] st IH].
    + cbn. rewrite String.eqb_refl. reflexivity.
    + cbn [existsb fst] in Ex. apply orb_false_iff in Ex. destruct Ex as [E Ex].
      cbn [app find fst]. rewrite E. apply IH, Ex.
Qed.

Lemma store_lookup_save_other (f n : string) (c : content) (st : store) :
  f <> n -> store_lookup f (store_save n c st) = store_lookup f st.
Proof.
  intros Hfn. unfold store_save. destruct (existsb _ st).
  - unfold store_lookup. induction st as [|[g d] st IH]; [reflexivity|].
    cbn [map find fst]. destruct (String.eqb g n) eqn:E.
    + apply String.eqb_eq in E. subst g.
      assert (Ef : String.eqb n f = false) by (apply String.eqb_neq; congruence).
      cbn [fst]. rewrite Ef. exact IH.
    + cbn [fst]. destruct (String.eqb g f); [reflexivity | exact IH].
  - unfold store_lookup. induction st as [|[g d] st IH].
    + cbn. assert (Ef : String.eqb n f = false) by (apply String.eqb_neq; congruence).
      rewrite Ef. reflexivity.
    + cbn [app find fst]. destruct (String.eqb g f); [reflexivity | exact IH].
Qed.

Lemma store_lookup_in (n : string) (c : content) (st : store) :
  NoDup (map fst st) -> In (n, c) st -> store_lookup n st = Some c.
Proof.
  unfold store_lookup. induction st as [|[g d] st IH]; intros Hnd Hin; [contradiction|].
  cbn [map fst] in Hnd. inversion Hnd as [|? ? Hg Hnd']; subst.
  cbn [find fst]. destruct Hin as [Heq|Hin].
  - injection Heq as -> ->. rewrite String.eqb_refl. reflexivity.
  - destruct (String.eqb g n) eqn:E.
    + apply String.eqb_eq in E. subst g. exfalso. apply Hg.
      apply in_map_iff. exists (n, c). split; [reflexivity | exact Hin].
    + apply IH; assumption.
Qed.

Lemma store_lookup_notin (n : string) (st : store) :
  ~ In n (map fst st) -> store_lookup n st = None.
Proof.
  unfold store_lookup. induction st as [|[g d] st IH]; intros Hn; [reflexivity|].
  cbn [find fst]. destruct (String.eqb g n) eqn:E.
  - apply String.eqb_eq in E. subst g. exfalso. apply Hn. left. reflexivity.
  - apply IH. intros H. apply Hn. right. exact H.
Qed.

Lemma merge_loop_ok (paths : list string) (acc : list item) (st : store) :
  NoDup paths ->
  (forall f, In f paths -> exists items, store_lookup f st = Some (ItemCollFile items)) ->
  merge_loop paths acc st =
    Ok (acc ++ concat (map (listed_items st) paths),
        fold_left (fun s f => store_remove f s) paths st).
Proof.
  revert acc st. induction paths as [|f rest IH]; intros acc st Hnd Hall.
  - cbn. rewrite app_nil_r. reflexivity.
  - inversion Hnd as [|? ? Hf Hnd']; subst.
    destruct (Hall f (or_introl eq_refl)) as [items Hitems].
    cbn [merge_loop]. rewrite Hitems.
    rewrite IH; [| exact Hnd' |].
    + assert (Hmap : map (listed_items (store_remove f st)) rest =
                     map (listed_items st) rest).
      { apply map_ext_in. intros g Hg. unfold listed_items.
        rewrite store_lookup_remove_other; [reflexivity|].
        intros ->. contradiction. }
      rewrite Hmap. cbn [map concat fold_left]. unfold listed_items at 2.
      rewrite Hitems, <- app_assoc. reflexivity.
    + intros g Hg. rewrite store_lookup_remove_other.
      * apply Hall. right. exact Hg.
      * intros ->. contradiction.
Qed.

Lemma fold_remove_lookup (paths : list string) (st : store) (g : string) :
  store_lookup g (fold_left (fun s f => store_remove f s) paths st) =
    if existsb (String.eqb g) paths then None else store_lookup g st.
Proof.
  revert st. induction paths as [|f rest IH]; intros st; [reflexivity|].
  cbn [fold_left existsb]. rewrite IH.
  destruct (String.eqb g f) eqn:E; cbn [orb].
  - apply String.eqb_eq in E. subst g. destruct (existsb _ rest); [reflexivity|].
    apply store_lookup_remove_same.
  - destruct (existsb _ rest); [reflexivity|].
    apply store_lookup_remove_other. apply String.eqb_neq. exact E.
Qed.

Lemma Permutation_filter_bool {A} (p : A -> bool) (l l' : list A) :
  Permutation l l' -> Permutation (filter p l) (filter p l').
Proof.
  induction 1; cbn [filter].
  - constructor.
  - destruct (p x); [constructor|]; assumption.
  - destruct (p x), (p y); try constructor; reflexivity.
  - eapply Permutation_trans; eassumption.
Qed.

Lemma prefix_app (s1 s2 : string) : String.prefix s1 (s1 ++ s2) = true.
Proof.
  induction s1 as [|a s1 IH]; [destruct s2; reflexivity|].
  cbn. destruct (ascii_dec a a) as [_|Hn]; [exact IH | congruence].
Qed.

Lemma batch_file_name_prefix (i : nat) :
  String.prefix batch_prefix (batch_file_name i) = true.
Proof. apply prefix_app. Qed.

(** Claim C4 (amended): the merge concatenates the per-batch artifacts
    in the order [os.listdir] lists them (not necessarily batch order),
    without re-sorting or removing duplicates. The merged collection is
    a permutation of the batch-ordered concatenation of the per-batch
    results, so no item is duplicated or omitted. It is saved as
    item-collection.json and every per-batch artifact is deleted. This
    holds for any batch size. *)
Theorem merge_batches_listing_order (others : store)
    (outs : list (string * list item)) (listing : list string) :
  Forall (fun p => String.prefix batch_prefix (fst p) = false) others ->
  Forall (fun p => exists i, fst p = batch_file_name i) outs ->
  NoDup (map fst (others ++ batch_entries outs)) ->
  Permutation listing (map fst (others ++ batch_entries outs)) ->
  exists merged st',
    merge_batches listing (others ++ batch_entries outs) = Ok st' /\
    merged = concat (map (listed_items (others ++ batch_entries outs))
                         (filter (String.prefix batch_prefix) listing)) /\
    Permutation merged (concat (map snd outs)) /\
    store_lookup default_file_name st' = Some (ItemCollFile merged) /\
    (forall f, String.prefix batch_prefix f = true -> store_lookup f st' = None).
Proof.
  intros Hothers Houts Hnd Hperm.
  set (st := others ++ batch_entries outs) in *.
  set (paths := filter (String.prefix batch_prefix) listing).
  assert (Hpre_outs : Forall (fun p => String.prefix batch_prefix (fst p) = true) outs).
  { eapply Forall_impl; [|exact Houts]. intros p [i ->]. apply batch_file_name_prefix. }
  assert (Hfilter : filter (String.prefix batch_prefix) (map fst st) = map fst outs).
  { unfold st, batch_entries. rewrite map_app, filter_app, map_map. cbn [fst].
    replace (filter (String.prefix batch_prefix) (map fst others)) with (@nil string).
    - cbn [app]. clear -Hpre_outs. induction outs as [|p outs IH]; [reflexivity|].
      inversion Hpre_outs as [|? ? Hp Hrest]; subst. cbn [map filter].
      rewrite Hp, IH by exact Hrest. reflexivity.
    - clear -Hothers. induction others as [|p others IH]; [reflexivity|].
      inversion Hothers as [|? ? Hp Hrest]; subst. cbn [map filter].
      rewrite Hp. apply IH, Hrest. }
  assert (Hpaths_perm : Permutation paths (map fst outs)).
  { rewrite <- Hfilter. apply Permutation_filter_bool. exact Hperm. }
  assert (Hnd_paths : NoDup paths).
  { apply NoDup_filter. apply (Permutation_NoDup (Permutation_sym Hperm)). exact Hnd. }
  assert (Hin_out : forall n items, In (n, items) outs ->
            store_lookup n st = Some (ItemCollFile items)).
  { intros n items Hin. apply store_lookup_in; [exact Hnd|].
    unfold st, batch_entries. apply in_or_app. right.
    apply in_map_iff. exists (n, items). split; [reflexivity | exact Hin]. }
  assert (Hall : forall f, In f paths ->
            exists items, store_lookup f st = Some (ItemCollFile items)).
  { intros f Hf. apply (Permutation_in _ Hpaths_perm) in Hf.
    apply in_map_iff in Hf. destruct Hf as ([n items] & <- & Hin).
    exists items. apply Hin_out. exact Hin. }
  unfold merge_batches. fold paths.
  rewrite (merge_loop_ok paths [] st Hnd_paths Hall). cbn [app].
  eexists. eexists. split; [reflexivity|].
  split; [reflexivity|].
  split.
  - rewrite <- !flat_map_concat_map.
    eapply Permutation_trans.
    + apply Permutation_flat_map. exact Hpaths_perm.
    + rewrite !flat_map_concat_map, map_map.
      replace (map (fun x => listed_items st (fst x)) outs) with (map snd outs);
        [reflexivity|].
      apply map_ext_in.
      intros [n items] Hin. unfold listed_items. cbn [fst snd].
      rewrite (Hin_out n items Hin). reflexivity.
  - split; [apply store_lookup_save_same|].
    intros f Hf. rewrite store_lookup_save_other.
    + rewrite fold_remove_lookup.
      destruct (existsb (String.eqb f) paths) eqn:Ex; [reflexivity|].
      apply store_lookup_notin. intros Hin.
      apply (Permutation_in _ (Permutation_sym Hperm)) in Hin.
      assert (Hinp : In f paths) by (apply filter_In; split; assumption).
      assert (Hx : existsb (String.eqb f) paths = true).
      { apply existsb_exists. exists f. split; [exact Hinp | apply String.eqb_refl]. }
      congruence.
    + intros ->. vm_compute in Hf. discriminate Hf.
Qed.

Lemma merge_batches_listing_order_witness :
  let others := [("images"%string, OtherEntry)] in
  let outs := [(batch_file_name 0, [mk_sample 0]); (batch_file_name 1, [mk_sample 1])] in
  let listing := ["images"%string; batch_file_name 1; batch_file_name 0] in
  Forall (fun p => String.prefix batch_prefix (fst p) = false) others /\
  Forall (fun p => exists i, fst p = batch_file_name i) outs /\
  NoDup (map fst (others ++ batch_entries outs)) /\
  Permutation listing (map fst (others ++ batch_entries outs)) /\
  exists merged st',
    merge_batches listing (others ++ batch_entries outs) = Ok st' /\
    merged = concat (map (listed_items (others ++ batch_entries outs))
                         (filter (String.prefix batch_prefix) listing)) /\
    Permutation merged (concat (map snd outs)) /\
    store_lookup default_file_name st' = Some (ItemCollFile merged) /\
    (forall f, String.prefix batch_prefix f = true -> store_lookup f st' = None).
Proof.
  intros others outs listing.
  assert (H1 : Forall (fun p => String.prefix batch_prefix (fst p) = false) others)
    by (constructor; [vm_compute; reflexivity | constructor]).
  assert (H2 : Forall (fun p => exists i, fst p = batch_file_name i) outs)
    by (constructor; [exists 0; reflexivity | constructor; [exists 1; reflexivity | constructor]]).
  assert (H3 : NoDup (map fst (others ++ batch_entries outs))).
  { vm_compute. repeat constructor; cbn; intuition discriminate. }
  assert (H4 : Permutation listing (map fst (others ++ batch_entries outs))).
  { vm_compute. apply perm_skip, perm_swap. }
  split; [exact H1|]. split; [exact H2|]. split; [exact H3|]. split; [exact H4|].
  exact (merge_batches_listing_order others outs listing H1 H2 H3 H4).
Defined.

(** Two batch artifacts that the file system lists in reverse batch order
    are merged in that reverse order. *)
Lemma merge_batches_listing_order_counterexample :
  let outs := [(batch_file_name 0, [mk_sample 0]); (batch_file_name 1, [mk_sample 1])] in
  exists st',
    merge_batches [batch_file_name 1; batch_file_name 0] (batch_entries outs) = Ok st' /\
    store_lookup default_file_name st' = Some (ItemCollFile [mk_sample 1; mk_sample 0]) /\
    [mk_sample 1; mk_sample 0] <> concat (map snd outs).
Proof.
  intros outs. eexists. split; [vm_compute; reflexivity|].
  split; [vm_compute; reflexivity|].
  vm_compute. discriminate.
Qed.

(* ------------------------------------------------------------------ *)
(** ** The collection extent *)

Lemma fold_extend_split (ps : list point) (x0 y0 x1 y1 : Q) :
  fold_left extend_bbox ps (x0, y0, x1, y1) =
  (fold_left (fun m p => Qmin m (px p)) ps x0,
   fold_left (fun m p => Qmin m (py p)) ps y0,
   fold_left (fun m p => Qmax m (px p)) ps x1,
   fold_left (fun m p => Qmax m (py p)) ps y1).
Proof.
  revert x0 y0 x1 y1. induction ps as [|a ps IH]; intros; [reflexivity|].
  cbn [fold_left]. cbn [extend_bbox]. apply IH.
Qed.

Lemma fold_Qmin_spec (f : point -> Q) (ps : list point) (m0 : Q) :
  let m := fold_left (fun m p => Qmin m (f p)) ps m0 in
  (m <= m0)%Q /\ (forall p, In p ps -> (m <= f p)%Q) /\
  ((m == m0)%Q \/ exists p, In p ps /\ (f p == m)%Q).
Proof.
  revert m0. induction ps as [|a ps IH]; intros m0; cbn [fold_left].
  - split; [apply Qle_refl|]. split; [intros p []|]. left. reflexivity.
  - destruct (IH (Qmin m0 (f a))) as (H1 & H2 & H3).
    set (m := fold_left _ ps _) in *.
    split; [| split].
    + eapply Qle_trans; [exact H1 | apply Q.le_min_l].
    + intros p [<-|Hp]; [| apply H2, Hp].
      eapply Qle_trans; [exact H1 | apply Q.le_min_r].
    + destruct H3 as [H3 | (p & Hp & H3)].
      * destruct (Q.min_dec m0 (f a)) as [E|E]; rewrite E in H3.
        -- left. exact H3.
        -- right. exists a. split; [left; reflexivity | symmetry; exact H3].
      * right. exists p. split; [right; exact Hp | exact H3].
Qed.

Lemma fold_Qmax_spec (f : point -> Q) (ps : list point) (m0 : Q) :
  let m := fold_left (fun m p => Qmax m (f p)) ps m0 in
  (m0 <= m)%Q /\ (forall p, In p ps -> (f p <= m)%Q) /\
  ((m == m0)%Q \/ exists p, In p ps /\ (f p == m)%Q).
Proof.
  revert m0. induction ps as [|a ps IH]; intros m0; cbn [fold_left].
  - split; [apply Qle_refl|]. split; [intros p []|]. left. reflexivity.
  - destruct (IH (Qmax m0 (f a))) as (H1 & H2 & H3).
    set (m := fold_left _ ps _) in *.
    split; [| split].
    + eapply Qle_trans; [apply Q.le_max_l | exact H1].
    + intros p [<-|Hp]; [| apply H2, Hp].
      eapply Qle_trans; [apply Q.le_max_r | exact H1].
    + destruct H3 as [H3 | (p & Hp & H3)].
      * destruct (Q.max_dec m0 (f a)) as [E|E]; rewrite E in H3.
        -- left. exact H3.
        -- right. exists a. split; [left; reflexivity | symmetry; exact H3].
      * right. exists p. split; [right; exact Hp | exact H3].
Qed.

Lemma bounds_is_bbox (g : geometry) (b : bbox) :
  bounds g = Some b -> is_bbox (vertices g) b.
Proof.
  unfold bounds. destruct (vertices g) as [|p0 ps]; [discriminate|].
  intros Hb. injection Hb as <-. rewrite fold_extend_split. cbn [is_bbox].
  destruct (fold_Qmin_spec px ps (px p0)) as (A1 & A2 & A3).
  destruct (fold_Qmin_spec py ps (py p0)) as (B1 & B2 & B3).
  destruct (fold_Qmax_spec px ps (px p0)) as (C1 & C2 & C3).
  destruct (fold_Qmax_spec py ps (py p0)) as (D1 & D2 & D3).
  split; [| split; [| split; [| split]]].
  - intros p [<-|Hp]; repeat split; auto.
  - destruct A3 as [E | (p & Hp & E)];
      [exists p0; split; [left; reflexivity | symmetry; exact E]
      | exists p; split; [right; exact Hp | exact E]].
  - destruct B3 as [E | (p & Hp & E)];
      [exists p0; split; [left; reflexivity | symmetry; exact E]
      | exists p; split; [right; exact Hp | exact E]].
  - destruct C3 as [E | (p & Hp & E)];
      [exists p0; split; [left; reflexivity | symmetry; exact E]
      | exists p; split; [right; exact Hp | exact E]].
  - destruct D3 as [E | (p & Hp & E)];
      [exists p0; split; [left; reflexivity | symmetry; exact E]
      | exists p; split; [right; exact Hp | exact E]].
Qed.

Lemma bounds_some (g : geometry) : vertices g <> [] -> exists b, bounds g = Some b.
Proof.
  unfold bounds. destruct (vertices g); [contradiction|]. intros _. eexists. reflexivity.
Qed.

Lemma vertices_unary_union (gs : list geometry) (p : point) :
  In p (vertices (unary_union gs)) <-> exists g, In g gs /\ In p (vertices g).
Proof.
  unfold vertices, unary_union. rewrite in_concat. split.
  - intros (poly & Hpoly & Hp). apply in_concat in Hpoly.
    destruct Hpoly as (g & Hg & Hpoly). exists g. split; [exact Hg|].
    apply in_concat. exists poly. split; assumption.
  - intros (g & Hg & Hp). apply in_concat in Hp. destruct Hp as (poly & Hpoly & Hp).
    exists poly. split; [| exact Hp]. apply in_concat. exists g. split; assumption.
Qed.

Lemma py_min_spec (d : Z) (ds : list Z) :
  In (py_min d ds) (d :: ds) /\ (forall x, In x (d :: ds) -> (py_min d ds <= x)%Z).
Proof.
  unfold py_min. revert d. induction ds as [|a ds IH]; intros d; cbn [fold_left].
  - split; [left; reflexivity | intros x [<-|[]]; lia].
  - destruct (IH (if (a <? d)%Z then a else d)) as [H1 H2].
    split.
    + destruct (Z.ltb_spec a d); destruct H1 as [E|E];
        [right; left; exact E | right; right; exact E | left; exact E | right; right; exact E].
    + intros x Hx. destruct (Z.ltb_spec a d).
      * destruct Hx as [<-|[<-|Hx]]; [specialize (H2 a (or_introl eq_refl)); lia
        | apply H2; left; reflexivity | apply H2; right; exact Hx].
      * destruct Hx as [<-|[<-|Hx]]; [apply H2; left; reflexivity
        | specialize (H2 d (or_introl eq_refl)); lia | apply H2; right; exact Hx].
Qed.

Lemma py_max_spec (d : Z) (ds : list Z) :
  In (py_max d ds) (d :: ds) /\ (forall x, In x (d :: ds) -> (x <= py_max d ds)%Z).
Proof.
  unfold py_max. revert d. induction ds as [|a ds IH]; intros d; cbn [fold_left].
  - split; [left; reflexivity | intros x [<-|[]]; lia].
  - destruct (IH (if (d <? a)%Z then a else d)) as [H1 H2].
    split.
    + destruct (Z.ltb_spec d a); destruct H1 as [E|E];
        [right; left; exact E | right; right; exact E | left; exact E | right; right; exact E].
    + intros x Hx. destruct (Z.ltb_spec d a).
      * destruct Hx as [<-|[<-|Hx]]; [specialize (H2 a (or_introl eq_refl)); lia
        | apply H2; left; reflexivity | apply H2; right; exact Hx].
      * destruct Hx as [<-|[<-|Hx]]; [apply H2; left; reflexivity
        | specialize (H2 d (or_introl eq_refl)); lia | apply H2; right; exact Hx].
Qed.

Lemma unit_squares_range (p : point) :
  In p (vertices (unit_square 0 0) ++ vertices (unit_square 1 1)) ->
  (0 <= px p)%Q /\ (0 <= py p)%Q /\ (px p <= 2)%Q /\ (py p <= 2)%Q.
Proof.
  intros Hp. cbn in Hp.
  repeat (destruct Hp as [<-|Hp]; [repeat split; apply Qle_bool_imp_le; reflexivity|]).
  contradiction.
Qed.

(** Claim C8: for every non-empty list of items, the spatial extent is
    the single bounding box of the union of the members' zero-buffer
    repaired geometries (every vertex of the union lies in it and each
    side is attained), and the temporal extent is the single interval
    [min(datetime), max(datetime)] over the members. In particular, two
    items whose geometries are the unit squares at (0,0) and (1,1) yield
    the box [0,0,2,2] and the interval of the smaller and larger of the
    two datetimes, for any repair that keeps the vertices of these two
    squares (as GEOS [buffer(0)] does for a valid polygon). *)
Theorem create_full_extent_bbox :
  (forall (buffer0 : geometry -> geometry) (l : list item), l <> [] ->
   let U := unary_union (map buffer0 (map item_geometry l)) in
   let ds := map item_datetime l in
   exists lo hi,
     create_full_extent buffer0 l = Some (mkExtent [bounds U] [(lo, hi)]) /\
     (forall p, In p (vertices U) <->
        exists it, In it l /\ In p (vertices (buffer0 (item_geometry it)))) /\
     (forall b, bounds U = Some b -> is_bbox (vertices U) b) /\
     (vertices U <> [] -> exists b, bounds U = Some b) /\
     In lo ds /\ In hi ds /\ (forall d, In d ds -> (lo <= d <= hi)%Z)) /\
  (forall (buffer0 : geometry -> geometry) (d1 d2 : Z),
   (forall p, In p (vertices (buffer0 (unit_square 0 0))) <->
              In p (vertices (unit_square 0 0))) ->
   (forall p, In p (vertices (buffer0 (unit_square 1 1))) <->
              In p (vertices (unit_square 1 1))) ->
   exists x0 y0 x1 y1,
     create_full_extent buffer0
       [mkItem "a" (unit_square 0 0) d1; mkItem "b" (unit_square 1 1) d2] =
       Some (mkExtent [Some (x0, y0, x1, y1)] [(Z.min d1 d2, Z.max d1 d2)]) /\
     (x0 == 0)%Q /\ (y0 == 0)%Q /\ (x1 == 2)%Q /\ (y1 == 2)%Q).
Proof.
  split.
  - intros buffer0 l Hl U ds.
    destruct l as [|it0 l]; [contradiction|].
    exists (py_min (item_datetime it0) (map item_datetime l)),
           (py_max (item_datetime it0) (map item_datetime l)).
    destruct (py_min_spec (item_datetime it0) (map item_datetime l)) as [Hm1 Hm2].
    destruct (py_max_spec (item_datetime it0) (map item_datetime l)) as [HM1 HM2].
    split; [reflexivity|].
    split.
    + intros p. unfold U. rewrite vertices_unary_union, map_map. split.
      * intros (g & Hg & Hp). apply in_map_iff in Hg. destruct Hg as (it & <- & Hit).
        exists it. split; assumption.
      * intros (it & Hit & Hp). exists (buffer0 (item_geometry it)). split; [|exact Hp].
        apply in_map_iff. exists it. split; [reflexivity | exact Hit].
    + split; [apply bounds_is_bbox|]. split; [apply bounds_some|].
      split; [exact Hm1|]. split; [exact HM1|].
      intros d Hd. split; [apply Hm2, Hd | apply HM2, Hd].
  - intros buffer0 d1 d2 Hb1 Hb2.
    set (l := [mkItem "a" (unit_square 0 0) d1; mkItem "b" (unit_square 1 1) d2]).
    set (U := unary_union (map buffer0 (map item_geometry l))).
    assert (HU : forall p, In p (vertices U) <->
               In p (vertices (unit_square 0 0) ++ vertices (unit_square 1 1))).
    { intros p. unfold U. rewrite vertices_unary_union, in_app_iff. split.
      - intros (g & Hg & Hp). cbn in Hg.
        destruct Hg as [<-|[<-|[]]]; [left; exact (proj1 (Hb1 p) Hp)
                                     | right; exact (proj1 (Hb2 p) Hp)].
      - intros [Hp|Hp].
        + exists (buffer0 (unit_square 0 0)). split; [cbn; auto | exact (proj2 (Hb1 p) Hp)].
        + exists (buffer0 (unit_square 1 1)). split; [cbn; auto | exact (proj2 (Hb2 p) Hp)]. }
    assert (Hne : vertices U <> []).
    { intros E.
      assert (H0 : In (mkPoint 0 0) (vertices U))
        by (apply HU, in_or_app; left; left; reflexivity).
      rewrite E in H0. exact H0. }
    destruct (bounds_some U Hne) as [[[[x0 y0] x1] y1] Hb].
    exists x0, y0, x1, y1.
    split.
    + unfold create_full_extent, get_spatial_extent. cbn [map].
      fold (map buffer0 (map item_geometry l)). fold U. rewrite Hb.
      unfold py_min, py_max. cbn [map fold_left l item_datetime].
      destruct (Z.ltb_spec d2 d1), (Z.ltb_spec d1 d2); repeat f_equal; lia.
    + destruct (bounds_is_bbox U _ Hb) as (Hall & (p1 & Hp1 & E1) & (p2 & Hp2 & E2)
                                          & (p3 & Hp3 & E3) & (p4 & Hp4 & E4)).
      assert (Hlo : In (mkPoint 0 0) (vertices U)) by (apply HU, in_or_app; left; left; reflexivity).
      assert (Hhi : In (mkPoint 2 2) (vertices U)) by (apply HU, in_or_app; right; cbn; right; right; left; reflexivity).
      destruct (Hall _ Hlo) as (L1 & L2 & _ & _). destruct (Hall _ Hhi) as (_ & _ & L3 & L4).
      cbn [px py] in L1, L2, L3, L4.
      apply HU, unit_squares_range in Hp1, Hp2, Hp3, Hp4.
      rewrite E1 in Hp1. rewrite E2 in Hp2. rewrite E3 in Hp3. rewrite E4 in Hp4.
      repeat split; apply Qle_antisym; tauto.
Qed.

Lemma create_full_extent_bbox_witness :
  let l := [mkItem "a" (unit_square 0 0) 5%Z; mkItem "b" (unit_square 1 1) 3%Z] in
  l <> [] /\
  (exists lo hi,
     create_full_extent (fun g => g) l =
       Some (mkExtent [bounds (unary_union (map item_geometry l))] [(lo, hi)]) /\
     lo = 3%Z /\ hi = 5%Z) /\
  (exists x0 y0 x1 y1,
     create_full_extent (fun g => g) l =
       Some (mkExtent [Some (x0, y0, x1, y1)] [(3%Z, 5%Z)]) /\
     (x0 == 0)%Q /\ (y0 == 0)%Q /\ (x1 == 2)%Q /\ (y1 == 2)%Q).
Proof.
  intros l.
  assert (Hl : l <> []) by discriminate.
  split; [exact Hl|]. split.
  - destruct (proj1 create_full_extent_bbox (fun g => g) l Hl)
      as (lo & hi & E & _ & _ & _ & Hlo & Hhi & Hb).
    exists lo, hi. rewrite map_id in E. split; [exact E|].
    vm_compute in E. injection E as <- <-. split; reflexivity.
  - exact (proj2 create_full_extent_bbox (fun g => g) 5%Z 3%Z
             (fun p => iff_refl _) (fun p => iff_refl _)).
Defined.

(* ------------------------------------------------------------------ *)
(** ** The preview estimate and [_sizeof_fmt] *)

Lemma entry_size_dir (n : string) (cs : list entry) :
  entry_size (DirE n cs) = get_dir_size cs.
Proof.
  induction cs as [|c cs IH]; [reflexivity|].
  cbn [entry_size get_dir_size fold_right] in *. rewrite IH. reflexivity.
Qed.

Lemma fold_right_Zadd_perm (l l' : list Z) :
  Permutation l l' -> fold_right Z.add 0%Z l = fold_right Z.add 0%Z l'.
Proof. induction 1; cbn [fold_right]; lia. Qed.

Lemma fold_right_Zadd_filter {A} (p : A -> bool) (g : A -> Z) (l : list A) :
  fold_right Z.add 0%Z (map g (filter p l)) =
  fold_right Z.add 0%Z (map (fun x => if p x then g x else 0%Z) l).
Proof.
  induction l as [|a l IH]; [reflexivity|].
  cbn [filter map fold_right]. destruct (p a); cbn [map fold_right]; lia.
Qed.

Lemma IZR_fold_right (l : list Z) :
  IZR (fold_right Z.add 0%Z l) = sumR (map IZR l).
Proof.
  induction l as [|a l IH]; [reflexivity|].
  cbn [fold_right map sumR]. rewrite plus_IZR, IH. reflexivity.
Qed.

Lemma get_dir_size_preview (j : Z) (dir_of : string -> list entry) (kept : list item) :
  get_dir_size (preview_dir j dir_of kept) =
  (j + fold_right Z.add 0%Z (map (fun it => get_dir_size (dir_of (item_id it))) kept))%Z.
Proof.
  unfold preview_dir, get_dir_size at 1. cbn [fold_right entry_size]. f_equal.
  induction kept as [|it kept IH]; [reflexivity|].
  cbn [map fold_right]. rewrite IH, entry_size_dir. reflexivity.
Qed.

Lemma sub_dir_size_preview (j : Z) (dir_of : string -> list entry)
    (keep : string -> bool) (pre_coll kept : list item) (id : string) :
  Permutation kept (filter (fun it => keep (item_id it)) pre_coll) ->
  In id (map item_id pre_coll) ->
  sub_dir_size (preview_dir j dir_of kept) id =
    if keep id then get_dir_size (dir_of id) else 0%Z.
Proof.
  intros Hperm Hid. unfold sub_dir_size, preview_dir. cbn [find].
  set (f := fun e => match e with
                     | DirE m _ => String.eqb m id
                     | FileE _ _ _ => false
                     end).
  destruct (find f _) as [x|] eqn:E.
  - apply find_some in E. destruct E as [Hx Hfx].
    apply in_map_iff in Hx. destruct Hx as (it & <- & Hit).
    cbn in Hfx. apply String.eqb_eq in Hfx. subst id.
    apply (Permutation_in _ Hperm), filter_In in Hit. destruct Hit as [_ Hk].
    rewrite Hk. reflexivity.
  - destruct (keep id) eqn:Hk; [|reflexivity]. exfalso.
    apply in_map_iff in Hid. destruct Hid as (it & <- & Hit).
    assert (Hin : In it kept).
    { apply (Permutation_in _ (Permutation_sym Hperm)), filter_In. split; assumption. }
    assert (Hf := find_none _ _ E (DirE (item_id it) (dir_of (item_id it)))).
    cbn [f] in Hf. rewrite String.eqb_refl in Hf. discriminate Hf.
    apply in_map_iff. exists it. split; [reflexivity | exact Hin].
Qed.

Lemma sizeof_loop_unit (units : list string) (k : nat) (num : R) :
  k < List.length units ->
  (k = 0 \/ (1024 ^ k <= Rabs num)%R) ->
  (Rabs num < 1024 ^ S k)%R ->
  sizeof_loop units num = ((num / 1024 ^ k)%R, nth k units ""%string).
Proof.
  revert units num. induction k as [|k IH]; intros units num Hk Hlo Hhi;
    destruct units as [|u rest]; cbn [List.length] in Hk; try lia.
  - cbn [sizeof_loop]. cbn [pow] in Hhi. rewrite Rmult_1_r in Hhi.
    destruct (Rlt_dec (Rabs num) 1024) as [_|Hn]; [|contradiction].
    cbn [pow nth]. unfold Rdiv. rewrite Rinv_1, Rmult_1_r. reflexivity.
  - destruct Hlo as [Hlo|Hlo]; [discriminate|].
    assert (Hp : (1 <= 1024 ^ k)%R) by (apply pow_R1_Rle; lra).
    cbn [pow] in Hlo, Hhi.
    cbn [sizeof_loop]. destruct (Rlt_dec (Rabs num) 1024) as [Hl|_]; [nra|].
    assert (Habs : Rabs (num / 1024) = (Rabs num / 1024)%R).
    { unfold Rdiv. rewrite Rabs_mult, Rabs_inv, (Rabs_pos_eq 1024) by lra. reflexivity. }
    rewrite (IH rest (num / 1024)%R); [| lia | right | ].
    + cbn [nth pow]. f_equal. field. lra.
    + rewrite Habs. lra.
    + rewrite Habs. cbn [pow]. lra.
Qed.

(** Claim C5 (amended): the estimate scales by N_total once, with no
    second division by the sample size. For a preview directory [tmp]
    of [n_items >= 2] entries and a non-empty sample, the code reports
    [mean = T / n_items * N_total] and
    [ci = 1.96 * std(sizes) / sqrt(n_items - 1) * N_total], where [T] is
    the total size of the directory, [sizes] the directory sizes of the
    sampled items and [std] the population standard deviation. For the
    preview directory, [sizes] holds the size of each sampled item's
    directory, 0 for an item whose directory was removed. Both numbers
    are rendered in base-1024 units: a number whose magnitude lies in
    [1024^u, 1024^(u+1)) is divided by [1024^u] and shown with the u-th
    binary prefix. *)
Theorem preview_estimate :
  (forall (tmp : list entry) (pre_coll : list item) (n_total : nat),
   2 <= List.length tmp -> pre_coll <> [] ->
   let n_items := List.length tmp in
   let sizes := map (fun it => IZR (sub_dir_size tmp (item_id it))) pre_coll in
   estimate tmp pre_coll n_total =
     Some ((IZR (get_dir_size tmp) / INR n_items * INR n_total)%R,
           Fin (196 / 100 * np_std sizes / sqrt (INR (n_items - 1)) * INR n_total)%R)) /\
  (forall (j : Z) (dir_of : string -> list entry) (keep : string -> bool)
          (pre_coll kept : list item),
   Permutation kept (filter (fun it => keep (item_id it)) pre_coll) ->
   map (fun it => IZR (sub_dir_size (preview_dir j dir_of kept) (item_id it))) pre_coll =
   map (fun it => if keep (item_id it)
                  then IZR (get_dir_size (dir_of (item_id it))) else 0%R)
       pre_coll) /\
  (forall (num : R) (u : nat),
   u < 8 -> (u = 0 \/ (1024 ^ u <= Rabs num)%R) -> (Rabs num < 1024 ^ S u)%R ->
   sizeof_fmt num = ((num / 1024 ^ u)%R, (nth u size_units "" ++ "B")%string)).
Proof.
  split; [|split].
  - intros tmp pre_coll n_total Hlen Hne n_items sizes.
    unfold estimate. fold n_items. fold sizes.
    destruct n_items as [|[|m]] eqn:En; [lia | lia |].
    assert (Hd : sqrt (INR (S (S m) - 1)) <> 0%R).
    { rewrite Nat.sub_succ, Nat.sub_0_r. apply Rgt_not_eq, sqrt_lt_R0, lt_0_INR. lia. }
    assert (Hs : np_std_f sizes = Fin (np_std sizes)).
    { unfold sizes. destruct pre_coll; [contradiction | reflexivity]. }
    rewrite Hs. cbn [f_scale f_div].
    destruct (Req_EM_T (sqrt (INR (S (S m) - 1))) 0) as [E|_]; [contradiction|].
    cbn [f_mul]. reflexivity.
  - intros j dir_of keep pre_coll kept Hperm.
    apply map_ext_in. intros it Hit.
    rewrite (sub_dir_size_preview j dir_of keep pre_coll kept (item_id it) Hperm)
      by (apply in_map; exact Hit).
    destruct (keep (item_id it)); reflexivity.
  - intros num u Hu Hlo Hhi. unfold sizeof_fmt.
    rewrite (sizeof_loop_unit size_units u num) by (cbn [size_units List.length]; lia || assumption).
    reflexivity.
Qed.

Lemma preview_estimate_witness :
  let pre := [mk_sample 0; mk_sample 1] in
  let keep := fun _ : string => true in
  let dir_of := fun _ : string => [FileE "data.tif" 100%Z false] in
  let tmp := preview_dir 500 dir_of pre in
  (2 <= List.length tmp /\ pre <> [] /\
   estimate tmp pre 100 =
     Some ((IZR (get_dir_size tmp) / INR (List.length tmp) * INR 100)%R,
           Fin (196 / 100 * np_std (map (fun it => IZR (sub_dir_size tmp (item_id it))) pre)
                / sqrt (INR (List.length tmp - 1)) * INR 100)%R)) /\
  (Permutation pre (filter (fun it => keep (item_id it)) pre) /\
   map (fun it => IZR (sub_dir_size tmp (item_id it))) pre =
   map (fun it => if keep (item_id it)
                  then IZR (get_dir_size (dir_of (item_id it))) else 0%R) pre) /\
  (1 < 8 /\ (1 = 0 \/ (1024 ^ 1 <= Rabs 2048)%R) /\ (Rabs 2048 < 1024 ^ 2)%R /\
   sizeof_fmt 2048 = ((2048 / 1024 ^ 1)%R, (nth 1 size_units "" ++ "B")%string)).
Proof.
  intros pre keep dir_of tmp.
  assert (Hlen : 2 <= List.length tmp) by (cbn; lia).
  assert (Hne : pre <> []) by discriminate.
  assert (Hperm : Permutation pre (filter (fun it => keep (item_id it)) pre)).
  { replace (filter _ pre) with pre by reflexivity. apply Permutation_refl. }
  assert (Habs : Rabs 2048 = 2048%R) by (apply Rabs_pos_eq; lra).
  assert (H1 : 1 < 8) by lia.
  assert (H2 : 1 = 0 \/ (1024 ^ 1 <= Rabs 2048)%R) by (right; rewrite Habs; cbn [pow]; lra).
  assert (H3 : (Rabs 2048 < 1024 ^ 2)%R) by (rewrite Habs; cbn [pow]; lra).
  split; [|split].
  - split; [exact Hlen|]. split; [exact Hne|].
    exact (proj1 preview_estimate tmp pre 100 Hlen Hne).
  - split; [exact Hperm|].
    exact (proj1 (proj2 preview_estimate) 500%Z dir_of keep pre pre Hperm).
  - split; [exact H1|]. split; [exact H2|]. split; [exact H3|].
    exact (proj2 (proj2 preview_estimate) 2048%R 1 H1 H2 H3).
Defined.

(** Ten sampled items of 100 bytes each and an artifact of 500 bytes,
    for 100 items in total: the closed form of the specification gives
    1000 bytes, the code reports 1500 / 11 * 100, more than 13 times as
    much. Without the artifact the code's formula would still give
    1000 / 10 * 100 = 10000: the closed form divides by the sample size
    once more than the code. *)
Lemma preview_estimate_counterexample :
  let pre := map mk_sample (seq 0 10) in
  let tmp := preview_dir 500 (fun _ => [FileE "data.tif" 100%Z false]) pre in
  let sizes := map (fun it => IZR (sub_dir_size tmp (item_id it))) pre in
  exists m c,
    estimate tmp pre 100 = Some (m, c) /\
    spec_mean sizes 100 = 1000%R /\
    (m > 13 * spec_mean sizes 100)%R.
Proof.
  intros pre tmp sizes.
  assert (Hd : get_dir_size tmp = 1500%Z) by (vm_compute; reflexivity).
  assert (Hl : List.length tmp = 11) by reflexivity.
  assert (Hs : sizes = map IZR (repeat 100%Z 10)).
  { unfold sizes. rewrite <- (map_map (fun it => sub_dir_size tmp (item_id it)) IZR).
    f_equal. }
  assert (Hm : spec_mean sizes 100 = 1000%R).
  { rewrite Hs. unfold spec_mean. rewrite length_map, repeat_length.
    cbn [repeat map sumR fold_right].
    replace (INR 10) with 10%R by (cbn; ring).
    replace (INR 100) with 100%R by (cbn; ring). field. }
  unfold estimate. rewrite Hl, Hd.
  eexists. eexists. split; [reflexivity|].
  split; [exact Hm|]. rewrite Hm.
  replace (INR 11) with 11%R by (cbn; ring).
  replace (INR 100) with 100%R by (cbn; ring). lra.
Qed.

(* ------------------------------------------------------------------ *)
(** ** The walk of [_find_empty_subdirs] and the removals *)

Lemma entry_ind' (P : entry -> Prop) :
  (forall n s b, P (FileE n s b)) ->
  (forall n cs, Forall P cs -> P (DirE n cs)) ->
  forall e, P e.
Proof.
  intros Hf Hd. fix F 1. intros [n s b|n cs]; [apply Hf|]. apply Hd.
  induction cs as [|c cs IH]; constructor; [apply F | exact IH].
Qed.

Lemma walk_empty_eq (here : list string) (n : string) (cs : list entry) :
  walk_empty here (DirE n cs) =
    match cs with [] => [here] | _ => [] end ++
    flat_map (empty_kid here) cs ++ flat_map (walk_kid here) cs.
Proof.
  cbn [walk_empty]. f_equal. f_equal.
  induction cs as [|c cs IH]; [reflexivity|].
  cbn [flat_map]. rewrite <- IH.
  destruct c as [m sz b|m [|x xs]]; reflexivity.
Qed.

Lemma names_unique_dir (n : string) (cs : list entry) :
  names_unique (DirE n cs) <->
  NoDup (map entry_name cs) /\ Forall names_unique cs.
Proof.
  cbn [names_unique]. split; intros [H1 H2]; split; try exact H1.
  - induction cs as [|c cs IH]; constructor; [apply H2 | apply IH, H2].
    inversion H1; assumption.
  - induction cs as [|c cs IH]; [exact I|]. inversion H2; subst.
    split; [assumption|]. apply IH; [inversion H1; assumption | assumption].
Qed.

Lemma names_unique_same (cs : list entry) (e1 e2 : entry) :
  NoDup (map entry_name cs) -> In e1 cs -> In e2 cs ->
  entry_name e1 = entry_name e2 -> e1 = e2.
Proof.
  induction cs as [|c cs IH]; intros Hnd H1 H2 Hn; [contradiction|].
  cbn [map] in Hnd. inversion Hnd as [|? ? Hc Hnd']; subst.
  destruct H1 as [<-|H1], H2 as [<-|H2]; try reflexivity.
  - exfalso. apply Hc. rewrite Hn. apply in_map, H2.
  - exfalso. apply Hc. rewrite <- Hn. apply in_map, H1.
  - apply IH; assumption.
Qed.

Lemma walk_in_gen (e : entry) :
  forall here p,
  match e with
  | DirE _ cs =>
      In p (walk_empty here e) <->
      (cs = [] /\ p = here) \/ exists r, p = here ++ r /\ empty_dir_at r cs
  | FileE _ _ _ => True
  end.
Proof.
  induction e as [n sz b|n cs IH] using entry_ind'; intros here p; [exact I|].
  rewrite Forall_forall in IH.
  rewrite walk_empty_eq, !in_app_iff, !in_flat_map.
  split.
  - intros [H0 | [(c & Hc & Hp) | (c & Hc & Hp)]].
    + destruct cs as [|c cs]; [|destruct H0].
      left. split; [reflexivity|]. destruct H0 as [<-|[]]. reflexivity.
    + destruct c as [m sz b | m [|x xs]]; cbn in Hp; try contradiction.
      destruct Hp as [<-|[]]. right. exists [m]. split; [reflexivity | exact Hc].
    + destruct c as [m sz b | m [|x xs]]; cbn [walk_kid] in Hp; try contradiction.
      specialize (IH _ Hc (here ++ [m]) p). cbv beta iota in IH.
      destruct IH as [IH1 _].
      destruct (IH1 Hp) as [[Hx _]|(r & -> & Hr)]; [discriminate|].
      right. exists (m :: r). split; [rewrite <- app_assoc; reflexivity|].
      destruct r as [|y ys]; [contradiction|]. exists (x :: xs). split; assumption.
  - intros [[-> ->] | (r & -> & Hr)].
    + left. left. reflexivity.
    + right. destruct r as [|m [|y ys]]; [contradiction| |].
      * left. exists (DirE m []). split; [exact Hr | left; reflexivity].
      * right. destruct Hr as (ch & Hch & Hr).
        destruct ch as [|x xs].
        { destruct ys; cbn in Hr; [contradiction | destruct Hr as (? & [] & _)]. }
        exists (DirE m (x :: xs)). split; [exact Hch|]. cbn [walk_kid].
        specialize (IH _ Hch (here ++ [m]) (here ++ m :: y :: ys)).
        cbv beta iota in IH. destruct IH as [_ IH2].
        apply IH2. right. exists (y :: ys).
        split; [rewrite <- app_assoc; reflexivity | exact Hr].
Qed.

Lemma walk_in (n : string) (cs : list entry) (here p : list string) :
  In p (walk_empty here (DirE n cs)) <->
  (cs = [] /\ p = here) \/ exists r, p = here ++ r /\ empty_dir_at r cs.
Proof. exact (walk_in_gen (DirE n cs) here p). Qed.

Lemma NoDup_flat_map_names (f : entry -> list (list string)) (here : list string)
    (cs : list entry) :
  NoDup (map entry_name cs) ->
  (forall c, In c cs -> NoDup (f c)) ->
  (forall c p, In c cs -> In p (f c) -> exists r, p = here ++ entry_name c :: r) ->
  NoDup (flat_map f cs).
Proof.
  induction cs as [|c cs IH]; intros Hnd Hf Hp; [constructor|].
  cbn [map] in Hnd. inversion Hnd as [|? ? Hc Hnd']; subst.
  cbn [flat_map]. apply NoDup_app.
  - apply Hf. left. reflexivity.
  - apply IH; [exact Hnd' | intros; apply Hf; right; assumption
              | intros; apply Hp; [right|]; assumption].
  - intros p Hp1 Hp2. apply in_flat_map in Hp2. destruct Hp2 as (c' & Hc' & Hp2).
    destruct (Hp c p (or_introl eq_refl) Hp1) as (r1 & E1).
    destruct (Hp c' p (or_intror Hc') Hp2) as (r2 & E2).
    rewrite E1 in E2. apply app_inv_head in E2. injection E2 as En _.
    apply Hc. rewrite En. apply in_map, Hc'.
Qed.

Lemma empty_dir_at_nonnil (r : list string) (cs : list entry) :
  empty_dir_at r cs -> r <> [] /\ cs <> [].
Proof.
  destruct r as [|m [|y ys]]; cbn; [contradiction| |].
  - intros H. split; [discriminate|]. intros ->. exact H.
  - intros (ch & H & _). split; [discriminate|]. intros ->. exact H.
Qed.

Lemma walk_nodup_gen (e : entry) :
  forall here, names_unique e ->
  match e with DirE _ _ => NoDup (walk_empty here e) | FileE _ _ _ => True end.
Proof.
  induction e as [n sz b|n cs IH] using entry_ind'; intros here Hwf; [exact I|].
  rewrite Forall_forall in IH. apply names_unique_dir in Hwf. destruct Hwf as [Hnd Hall].
  rewrite Forall_forall in Hall.
  rewrite walk_empty_eq. destruct cs as [|c0 cs0]; [repeat constructor; intros []|].
  set (cs := c0 :: cs0) in *. cbn [app].
  apply NoDup_app.
  - apply (NoDup_flat_map_names _ here); [exact Hnd | |].
    + intros [m sz b|m [|x xs]] _; cbn; repeat constructor. intros [].
    + intros [m sz b|m [|x xs]] p _ Hp; cbn in Hp; try contradiction.
      destruct Hp as [<-|[]]. exists []. reflexivity.
  - apply (NoDup_flat_map_names _ here); [exact Hnd | |].
    + intros [m sz b|m [|x xs]] Hc; cbn [walk_kid]; try constructor.
      specialize (IH _ Hc (here ++ [m]) (Hall _ Hc)). exact IH.
    + intros [m sz b|m [|x xs]] p _ Hp; cbn [walk_kid] in Hp; try contradiction.
      apply walk_in in Hp. destruct Hp as [[Hx _]|(r & -> & _)]; [discriminate|].
      exists r. rewrite <- app_assoc. reflexivity.
  - intros p Hp1 Hp2. apply in_flat_map in Hp1, Hp2.
    destruct Hp1 as ([m sz b|m [|x xs]] & _ & Hp1); cbn in Hp1; try contradiction.
    destruct Hp1 as [<-|[]].
    destruct Hp2 as ([m' sz' b'|m' [|x' xs']] & _ & Hp2); cbn [walk_kid] in Hp2;
      try contradiction.
    apply walk_in in Hp2. destruct Hp2 as [[Hx _]|(r & E & Hr)]; [discriminate|].
    apply empty_dir_at_nonnil in Hr. destruct Hr as [Hr _].
    apply (f_equal (@List.length string)) in E. rewrite !length_app in E.
    cbn [List.length] in E. destruct r; [contradiction|]. cbn [List.length] in E. lia.
Qed.

Lemma walk_nodup (n : string) (cs : list entry) (here : list string) :
  names_unique (DirE n cs) -> NoDup (walk_empty here (DirE n cs)).
Proof. exact (walk_nodup_gen (DirE n cs) here). Qed.

Lemma empty_dir_at_prefix (r1 t : list string) (n : string) (cs : list entry) :
  names_unique (DirE n cs) ->
  empty_dir_at r1 cs -> empty_dir_at (r1 ++ t) cs -> t = [].
Proof.
  revert n cs. induction r1 as [|m r1 IH]; intros n cs Hwf H1 H2; [contradiction|].
  apply names_unique_dir in Hwf. destruct Hwf as [Hnd Hall].
  destruct r1 as [|y ys].
  - destruct t as [|z zs]; [reflexivity|]. exfalso.
    change (In (DirE m []) cs) in H1. cbn [app] in H2.
    destruct H2 as (ch & Hch & H2).
    assert (E : DirE m [] = DirE m ch) by (apply (names_unique_same cs); auto).
    injection E as <-. apply empty_dir_at_nonnil in H2. destruct H2 as [_ H2]. apply H2.
    reflexivity.
  - destruct H1 as (ch1 & Hch1 & H1).
    change ((m :: y :: ys) ++ t) with (m :: y :: (ys ++ t)) in H2.
    destruct H2 as (ch2 & Hch2 & H2).
    assert (E : DirE m ch1 = DirE m ch2) by (apply (names_unique_same cs); auto).
    injection E as <-.
    apply (IH m ch1); [| exact H1 | exact H2].
    rewrite Forall_forall in Hall. apply Hall, Hch1.
Qed.

Lemma empty_dir_at_exists (r : list string) (cs : list entry) :
  empty_dir_at r cs -> dir_exists r cs = true.
Proof.
  revert cs. induction r as [|m r IH]; intros cs H; [contradiction|].
  cbn [dir_exists]. apply existsb_exists.
  destruct r as [|y ys].
  - exists (DirE m []). split; [exact H|]. rewrite String.eqb_refl. reflexivity.
  - destruct H as (ch & Hch & H). exists (DirE m ch). split; [exact Hch|].
    rewrite String.eqb_refl, IH by exact H. reflexivity.
Qed.

Lemma dir_exists_cons (n : string) (p : list string) (cs : list entry) :
  dir_exists (n :: p) cs =
  existsb (fun e => match e with
                    | DirE m ch => String.eqb m n && dir_exists p ch
                    | FileE _ _ _ => false
                    end) cs.
Proof. reflexivity. Qed.

Lemma rm_path_cons2 (m y : string) (ys : list string) (cs : list entry) :
  rm_path (m :: y :: ys) cs =
  map (fun e => match e with
                | DirE k ch => if String.eqb k m then DirE k (rm_path (y :: ys) ch) else e
                | FileE _ _ _ => e
                end) cs.
Proof. reflexivity. Qed.

(** Two paths of which neither extends the other. *)
Lemma rm_path_other (p q : list string) (cs : list entry) :
  p <> [] -> q <> [] ->
  (forall t, p ++ t <> q) -> (forall t, q ++ t <> p) ->
  dir_exists p (rm_path q cs) = dir_exists p cs.
Proof.
  revert q cs. induction p as [|n p IH]; intros q cs Hp Hq Hpq Hqp; [contradiction|].
  destruct q as [|m q]; [contradiction|].
  rewrite !dir_exists_cons.
  destruct (String.eqb_spec m n) as [<-|Hmn].
  - destruct q as [|y ys].
    + exfalso. apply (Hqp p). reflexivity.
    + destruct p as [|z zs]; [exfalso; apply (Hpq (y :: ys)); reflexivity|].
      rewrite rm_path_cons2. induction cs as [|c cs IHc]; [reflexivity|].
      cbn [map existsb]. rewrite IHc. f_equal.
      destruct c as [k sz b|k ch]; [reflexivity|].
      destruct (String.eqb k m) eqn:Ekm; [|rewrite Ekm; reflexivity].
      apply String.eqb_eq in Ekm. subst k. rewrite String.eqb_refl. cbn [andb].
      apply IH; try discriminate.
      * intros t E. apply (Hpq t). cbn [app] in E |- *. congruence.
      * intros t E. apply (Hqp t). cbn [app] in E |- *. congruence.
  - destruct q as [|y ys].
    + cbn [rm_path]. induction cs as [|c cs IHc]; [reflexivity|].
      cbn [filter]. destruct (String.eqb (entry_name c) m) eqn:Ec; cbn [negb].
      * cbn [existsb]. rewrite IHc. destruct c as [k sz b|k ch]; [reflexivity|].
        cbn [entry_name] in Ec. apply String.eqb_eq in Ec. subst k.
        destruct (String.eqb_spec m n); [contradiction | reflexivity].
      * cbn [existsb]. rewrite IHc. reflexivity.
    + rewrite rm_path_cons2. induction cs as [|c cs IHc]; [reflexivity|].
      cbn [map existsb]. rewrite IHc. f_equal.
      destruct c as [k sz b|k ch]; [reflexivity|].
      destruct (String.eqb k m) eqn:Ekm; [|reflexivity].
      apply String.eqb_eq in Ekm. subst k.
      destruct (String.eqb_spec m n); [contradiction | reflexivity].
Qed.

Lemma rm_path_gone (p : list string) (cs : list entry) :
  p <> [] -> dir_exists p (rm_path p cs) = false.
Proof.
  revert cs. induction p as [|n p IH]; intros cs Hp; [contradiction|].
  rewrite dir_exists_cons. destruct p as [|y ys].
  - cbn [rm_path]. induction cs as [|c cs IHc]; [reflexivity|].
    cbn [filter]. destruct (String.eqb (entry_name c) n) eqn:Ec; cbn [negb].
    + exact IHc.
    + cbn [existsb]. rewrite IHc, orb_false_r.
      destruct c as [k sz b|k ch]; [reflexivity|].
      cbn [entry_name] in Ec. rewrite Ec. reflexivity.
  - rewrite rm_path_cons2. induction cs as [|c cs IHc]; [reflexivity|].
    cbn [map existsb]. rewrite IHc, orb_false_r.
    destruct c as [k sz b|k ch]; [reflexivity|].
    destruct (String.eqb k n) eqn:Ekn; [|cbn beta; rewrite ?Ekn; reflexivity].
    rewrite Ekn. cbn [andb]. apply IH. discriminate.
Qed.

Lemma fold_rm_other (p : list string) (qs : list (list string)) (cs : list entry) :
  p <> [] ->
  Forall (fun q => q <> [] /\ (forall t, p ++ t <> q) /\ (forall t, q ++ t <> p)) qs ->
  dir_exists p (fold_left (fun c q => rm_path q c) qs cs) = dir_exists p cs.
Proof.
  revert cs. induction qs as [|q qs IH]; intros cs Hp Hqs; [reflexivity|].
  inversion Hqs as [|? ? (Hq & H1 & H2) Hqs']; subst.
  cbn [fold_left]. rewrite IH by assumption. apply rm_path_other; assumption.
Qed.

Lemma rmtree_all_ok (ps : list (list string)) (cs : list entry) (art : option (list item)) :
  Forall (fun p => p <> [] /\ dir_exists p cs = true) ps ->
  ForallOrdPairs (fun p q => (forall t, p ++ t <> q) /\ (forall t, q ++ t <> p)) ps ->
  rmtree_all ps (mkFs (Some cs) art) =
    Ret tt (mkFs (Some (fold_left (fun c p => rm_path p c) ps cs)) art) /\
  Forall (fun p => dir_exists p (fold_left (fun c p => rm_path p c) ps cs) = false) ps.
Proof.
  revert cs. induction ps as [|p ps IH]; intros cs Hex Hind; [split; constructor|].
  inversion Hex as [|? ? (Hp & Hpe) Hex']; subst.
  inversion Hind as [|? ? Hrel Hind']; subst.
  assert (Hex2 : Forall (fun q => q <> [] /\ dir_exists q (rm_path p cs) = true) ps).
  { rewrite Forall_forall in Hex', Hrel |- *. intros q Hq.
    destruct (Hex' q Hq) as [Hqn Hqe]. destruct (Hrel q Hq) as [H1 H2].
    split; [exact Hqn|]. rewrite rm_path_other; assumption. }
  destruct (IH (rm_path p cs) Hex2 Hind') as [IH1 IH2].
  split.
  - cbn [rmtree_all]. unfold mbind, rmtree. cbn [fs_root fs_artifact].
    destruct p as [|x xs]; [contradiction|]. rewrite Hpe. exact IH1.
  - constructor; [|exact IH2]. cbn [fold_left].
    rewrite fold_rm_other; [apply rm_path_gone, Hp | exact Hp |].
    rewrite Forall_forall in Hex', Hrel |- *. intros q Hq.
    destruct (Hrel q Hq) as [H1 H2]. split; [apply Hex', Hq|]. split; assumption.
Qed.

Lemma nodup_indep (ps : list (list string)) :
  NoDup ps ->
  (forall p q t, In p ps -> In q ps -> p ++ t = q -> t = []) ->
  ForallOrdPairs (fun p q => (forall t, p ++ t <> q) /\ (forall t, q ++ t <> p)) ps.
Proof.
  induction ps as [|a ps IH]; intros Hnd Hpre; constructor.
  - inversion Hnd as [|? ? Ha _]; subst. apply Forall_forall. intros q Hq. split.
    + intros t E. assert (t = []) as -> by (eapply Hpre; [left | right |]; eauto).
      rewrite app_nil_r in E. subst q. contradiction.
    + intros t E. assert (t = []) as -> by (eapply Hpre; [right | left |]; eauto).
      rewrite app_nil_r in E. subst q. contradiction.
  - inversion Hnd; subst. apply IH; [assumption|].
    intros p q t Hp Hq. apply Hpre; right; assumption.
Qed.

Lemma find_empty_subdirs_in (cs : list entry) (p : list string) :
  cs <> [] -> In p (find_empty_subdirs (Some cs)) <-> empty_dir_at p cs.
Proof.
  intros Hcs. unfold find_empty_subdirs. rewrite walk_in. split.
  - intros [[E _]|(r & -> & Hr)]; [contradiction | exact Hr].
  - intros Hp. right. exists p. split; [reflexivity | exact Hp].
Qed.

Lemma rmtree_all_flagged (cs : list entry) (art : option (list item)) :
  names_unique (DirE "" cs) -> cs <> [] ->
  let ps := find_empty_subdirs (Some cs) in
  rmtree_all ps (mkFs (Some cs) art) =
    Ret tt (mkFs (Some (fold_left (fun c p => rm_path p c) ps cs)) art) /\
  (forall r, empty_dir_at r cs ->
     dir_exists r (fold_left (fun c p => rm_path p c) ps cs) = false).
Proof.
  intros Hwf Hcs ps.
  assert (Hex : Forall (fun p => p <> [] /\ dir_exists p cs = true) ps).
  { apply Forall_forall. intros p Hp. apply find_empty_subdirs_in in Hp; [|exact Hcs].
    split; [apply (empty_dir_at_nonnil _ _ Hp) | apply empty_dir_at_exists, Hp]. }
  assert (Hind : ForallOrdPairs
                   (fun p q => (forall t, p ++ t <> q) /\ (forall t, q ++ t <> p)) ps).
  { apply nodup_indep; [apply walk_nodup, Hwf|].
    intros p q t Hp Hq E. subst q.
    apply (find_empty_subdirs_in cs _ Hcs) in Hp.
    apply (find_empty_subdirs_in cs _ Hcs) in Hq.
    exact (empty_dir_at_prefix p t "" cs Hwf Hp Hq). }
  destruct (rmtree_all_ok ps cs art Hex Hind) as [H1 H2].
  split; [exact H1|]. intros r Hr. rewrite Forall_forall in H2. apply H2.
  apply find_empty_subdirs_in; assumption.
Qed.

Lemma py_list_remove_incl (x : string) (l l' : list string) :
  py_list_remove x l = Some l' -> forall y, In y l' -> In y l.
Proof.
  revert l'. induction l as [|z l IH]; intros l' H y Hy; [discriminate|].
  cbn [py_list_remove] in H. destruct (String.eqb z x).
  - injection H as <-. right. exact Hy.
  - destruct (py_list_remove x l) as [r|] eqn:E; [|discriminate].
    cbn in H. injection H as <-. destruct Hy as [<-|Hy]; [left; reflexivity|].
    right. apply (IH r eq_refl y Hy).
Qed.

Lemma filter_all_true {A} (f : A -> bool) (l : list A) :
  (forall y, In y l -> f y = true) -> filter f l = l.
Proof.
  induction l as [|a l IH]; intros H; [reflexivity|].
  cbn [filter]. rewrite (H a (or_introl eq_refl)), IH; [reflexivity|].
  intros y Hy. apply H. right. exact Hy.
Qed.

Lemma py_list_remove_nodup (x : string) (l l' : list string) :
  NoDup l -> py_list_remove x l = Some l' ->
  l' = filter (fun y => negb (String.eqb y x)) l.
Proof.
  revert l'. induction l as [|z l IH]; intros l' Hnd H; [discriminate|].
  inversion Hnd as [|? ? Hz Hnd']; subst.
  cbn [py_list_remove] in H. cbn [filter].
  destruct (String.eqb_spec z x) as [<-|Hzx].
  - injection H as <-. cbn [negb]. symmetry. apply filter_all_true.
    intros y Hy. destruct (String.eqb_spec y z) as [->|]; [contradiction | reflexivity].
  - destruct (py_list_remove x l) as [r|] eqn:E; [|discriminate].
    cbn in H. injection H as <-. cbn [negb]. f_equal. exact (IH r Hnd' eq_refl).
Qed.

Lemma py_list_remove_in (x : string) (l l' : list string) :
  py_list_remove x l = Some l' -> In x l.
Proof.
  revert l'. induction l as [|z l IH]; intros l' H; [discriminate|].
  cbn [py_list_remove] in H. destruct (String.eqb_spec z x) as [<-|_].
  - left. reflexivity.
  - destruct (py_list_remove x l) as [r|]; [|discriminate].
    right. exact (IH r eq_refl).
Qed.

Lemma remove_each_missing (rm all : list string) (x : string) (s : fsstate) :
  In x rm -> ~ In x all -> remove_each rm all s = Exc ValueError s.
Proof.
  revert all. induction rm as [|y rm IH]; intros all Hx Hall; [contradiction|].
  cbn [remove_each]. destruct (py_list_remove y all) as [all'|] eqn:E; [|reflexivity].
  destruct Hx as [<-|Hx].
  - exfalso. apply Hall. exact (py_list_remove_in y all all' E).
  - apply IH; [exact Hx|]. intros H. apply Hall.
    exact (py_list_remove_incl y all all' E x H).
Qed.

Lemma filter_filter_and {A} (f g : A -> bool) (l : list A) :
  filter f (filter g l) = filter (fun y => g y && f y) l.
Proof.
  induction l as [|a l IH]; [reflexivity|].
  cbn [filter]. destruct (g a); cbn [andb filter]; [destruct (f a)|]; rewrite ?IH; reflexivity.
Qed.

Lemma remove_each_ok (rm all res : list string) (s s' : fsstate) :
  NoDup all -> remove_each rm all s = Ret res s' ->
  s' = s /\ res = filter (fun y => negb (in_ids y rm)) all.
Proof.
  revert all. induction rm as [|x rm IH]; intros all Hnd H.
  - cbn in H. injection H as <- <-. split; [reflexivity|].
    symmetry. apply filter_all_true. reflexivity.
  - cbn [remove_each] in H. destruct (py_list_remove x all) as [all'|] eqn:E;
      [|discriminate].
    pose proof (py_list_remove_nodup x all all' Hnd E) as Hall'.
    assert (Hnd' : NoDup all') by (rewrite Hall'; apply NoDup_filter, Hnd).
    destruct (IH all' Hnd' H) as [Hs Hres]. split; [exact Hs|].
    rewrite Hres, Hall', filter_filter_and. apply filter_ext. intros y.
    unfold in_ids. cbn [existsb]. rewrite negb_orb. reflexivity.
Qed.

Lemma basename_flagged (out_name : string) (cs : list entry) (x : string) :
  cs <> [] ->
  In x (map (basename out_name) (find_empty_subdirs (Some cs))) <->
  exists r, empty_dir_at r cs /\ last r ""%string = x.
Proof.
  intros Hcs. rewrite in_map_iff. split.
  - intros (r & <- & Hr). apply (find_empty_subdirs_in cs r Hcs) in Hr.
    exists r. split; [exact Hr|]. destruct r; [contradiction | reflexivity].
  - intros (r & Hr & <-). exists r. split.
    + destruct r; [contradiction | reflexivity].
    + apply (find_empty_subdirs_in cs r Hcs). exact Hr.
Qed.

(** Claim C10: when an empty directory is found whose name is not the
    id of any item listed in item-collection.json, the cleanup raises
    ValueError (from [list.remove]). By then every empty directory that
    was found has already been deleted from disk, and item-collection.json
    still holds the unchanged item list: the cleanup is not atomic. *)
Theorem remove_empty_items_not_atomic (out_name : string) (cs : list entry)
    (items : list item) (r : list string) :
  names_unique (DirE "" cs) ->
  empty_dir_at r cs ->
  ~ In (last r ""%string) (map item_id items) ->
  exists cs',
    remove_empty_items out_name (mkFs (Some cs) (Some items)) =
      Exc ValueError (mkFs (Some cs') (Some items)) /\
    (forall r', empty_dir_at r' cs -> dir_exists r' cs' = false).
Proof.
  intros Hwf Hr Hx.
  assert (Hcs : cs <> []) by (apply (empty_dir_at_nonnil r), Hr).
  destruct (rmtree_all_flagged cs (Some items) Hwf Hcs) as [H1 H2].
  set (ps := find_empty_subdirs (Some cs)) in *.
  eexists. split; [|exact H2].
  unfold remove_empty_items. cbn [fs_root]. fold ps.
  unfold mbind at 1. rewrite H1.
  unfold mbind at 1. cbn [read_artifact fs_artifact].
  unfold mbind at 1.
  rewrite (remove_each_missing _ _ (last r ""%string)); [reflexivity | | exact Hx].
  apply basename_flagged; [exact Hcs|]. exists r. split; [exact Hr | reflexivity].
Qed.

Lemma remove_empty_items_not_atomic_witness :
  let cs := [FileE "item-collection.json" 10%Z false;
             DirE "A" [FileE "x.tif" 5%Z false]; DirE "B" []] in
  let items := [mkItem "A" [] 0%Z] in
  names_unique (DirE "" cs) /\ empty_dir_at ["B"%string] cs /\
  ~ In (last ["B"%string] ""%string) (map item_id items) /\
  exists cs',
    remove_empty_items "out" (mkFs (Some cs) (Some items)) =
      Exc ValueError (mkFs (Some cs') (Some items)) /\
    (forall r', empty_dir_at r' cs -> dir_exists r' cs' = false).
Proof.
  intros cs items.
  assert (Hwf : names_unique (DirE "" cs)).
  { apply names_unique_dir. split.
    - repeat constructor; cbn; intuition discriminate.
    - repeat constructor; cbn; tauto. }
  assert (Hr : empty_dir_at ["B"%string] cs) by (cbn; auto).
  assert (Hx : ~ In (last ["B"%string] ""%string) (map item_id items))
    by (cbn; intuition discriminate).
  split; [exact Hwf|]. split; [exact Hr|]. split; [exact Hx|].
  exact (remove_empty_items_not_atomic "out" cs items ["B"%string] Hwf Hr Hx).
Defined.

Lemma in_ids_filter (p : string -> bool) (x : string) (l : list string) :
  In x l -> in_ids x (filter p l) = p x.
Proof.
  intros Hx. unfold in_ids. destruct (p x) eqn:Px.
  - apply existsb_exists. exists x. split; [apply filter_In; split; assumption|].
    apply String.eqb_refl.
  - apply not_true_iff_false. intros H. apply existsb_exists in H.
    destruct H as (y & Hy & Exy). apply String.eqb_eq in Exy. subst y.
    apply filter_In in Hy. destruct Hy as [_ Hy]. congruence.
Qed.

(** on a directory tree with unique names, whose
    item-collection.json lists items with distinct ids, a cleanup that
    completes deletes every empty directory. It rewrites the artifact
    as the old item list without the items whose id is the name of an
    empty directory, in the old order. It adds no item, so an item whose
    directory holds files is listed afterwards only if it was listed
    before. *)
Theorem remove_empty_items_effect (out_name : string) (cs : list entry)
    (items : list item) (s1 : fsstate) :
  names_unique (DirE "" cs) ->
  NoDup (map item_id items) ->
  remove_empty_items out_name (mkFs (Some cs) (Some items)) = Ret tt s1 ->
  let rm := map (basename out_name) (find_empty_subdirs (Some cs)) in
  cs <> [] /\
  (forall x, In x rm <-> exists r, empty_dir_at r cs /\ last r ""%string = x) /\
  exists cs',
    s1 = mkFs (Some cs') (Some (filter (fun it => negb (in_ids (item_id it) rm)) items)) /\
    (forall r, empty_dir_at r cs -> dir_exists r cs' = false).
Proof.
  intros Hwf Hnd H rm.
  assert (Hcs : cs <> []).
  { intros ->. cbv in H. discriminate H. }
  split; [exact Hcs|]. split; [intros x; apply basename_flagged, Hcs|].
  destruct (rmtree_all_flagged cs (Some items) Hwf Hcs) as [H1 H2].
  set (ps := find_empty_subdirs (Some cs)) in *.
  eexists. split; [|exact H2].
  unfold remove_empty_items in H. cbn [fs_root] in H. fold ps in H.
  unfold mbind at 1 in H. rewrite H1 in H.
  unfold mbind at 1 in H. cbn [read_artifact fs_artifact] in H.
  unfold mbind at 1 in H. fold rm in H.
  destruct (remove_each rm (map item_id items) _) as [res s'|e s'] eqn:E;
    [|discriminate H].
  destruct (remove_each_ok _ _ _ _ _ Hnd E) as [-> ->].
  cbn [write_artifact fs_root] in H. injection H as <-.
  f_equal. f_equal. apply filter_ext_in. intros it Hit.
  apply in_ids_filter, in_map, Hit.
Qed.

Lemma remove_empty_items_effect_witness :
  let cs := [FileE "item-collection.json" 10%Z false;
             DirE "A" [FileE "x.tif" 5%Z false]; DirE "B" []] in
  let items := [mkItem "A" [] 0%Z; mkItem "B" [] 0%Z] in
  let s1 := mkFs (Some [FileE "item-collection.json" 10%Z false;
                        DirE "A" [FileE "x.tif" 5%Z false]])
                 (Some [mkItem "A" [] 0%Z]) in
  names_unique (DirE "" cs) /\ NoDup (map item_id items) /\
  remove_empty_items "out" (mkFs (Some cs) (Some items)) = Ret tt s1 /\
  let rm := map (basename "out") (find_empty_subdirs (Some cs)) in
  cs <> [] /\
  (forall x, In x rm <-> exists r, empty_dir_at r cs /\ last r ""%string = x) /\
  exists cs',
    s1 = mkFs (Some cs') (Some (filter (fun it => negb (in_ids (item_id it) rm)) items)) /\
    (forall r, empty_dir_at r cs -> dir_exists r cs' = false).
Proof.
  intros cs items s1.
  assert (Hwf : names_unique (DirE "" cs)).
  { apply names_unique_dir. split.
    - repeat constructor; cbn; intuition discriminate.
    - repeat constructor; cbn; tauto. }
  assert (Hnd : NoDup (map item_id items)).
  { repeat constructor; cbn; intuition discriminate. }
  assert (Hrun : remove_empty_items "out" (mkFs (Some cs) (Some items)) = Ret tt s1)
    by (vm_compute; reflexivity).
  split; [exact Hwf|]. split; [exact Hnd|]. split; [exact Hrun|].
  exact (remove_empty_items_effect "out" cs items s1 Hwf Hnd Hrun).
Defined.

(** Claim C6 (code_bug): the preview phase passes no [file_name] to
    [download_item_collection] and merges nothing, unlike the main phase
    with its per-batch files and merge. With 20 items, the default
    preview size 10 and [reauth_batch_size = 5], the preview writes
    item-collection.json of the scratch directory twice, first with the
    sample's items 0-4, then with items 5-9, while the main phase writes
    four distinct batch files. The cleanup then completes on a scratch
    directory where all ten item directories hold a file, and leaves the
    artifact listing items 5-9 only: item 0 has a non-empty directory
    and is not listed. *)
Lemma preview_artifact_overwritten :
  let coll := map mk_sample (seq 0 20) in
  let pre := map mk_sample (seq 0 10) in
  let evs := fst (download_events 1 (fun _ => true) 10 (Some 5) coll pre) in
  filter (fun t => String.eqb (fst (fst t)) "temp_dir") (fetch_targets evs) =
    [("temp_dir", default_file_name, map item_id (firstn 5 pre));
     ("temp_dir", default_file_name, map item_id (skipn 5 pre))]%string /\
  map (fun t => snd (fst t))
      (filter (fun t => String.eqb (fst (fst t)) "out_dir") (fetch_targets evs)) =
    map batch_file_name [0; 5; 10; 15] /\
  let cs := FileE default_file_name 10%Z false
              :: map (fun it => DirE (item_id it) [FileE "x.tif" 5%Z false]) pre in
  remove_empty_items "temp_dir" (mkFs (Some cs) (Some (skipn 5 pre))) =
    Ret tt (mkFs (Some cs) (Some (skipn 5 pre))) /\
  In (DirE "0" [FileE "x.tif" 5%Z false]) cs /\
  ~ In "0"%string (map item_id (skipn 5 pre)).
Proof.
  intros coll pre evs.
  split; [vm_compute; reflexivity|].
  split; [vm_compute; reflexivity|].
  intros cs. split; [vm_compute; reflexivity|].
  split; [cbn; auto|]. cbn. intuition discriminate.
Qed.

(* ------------------------------------------------------------------ *)
(** ** [_download_grouped] *)

Lemma insert_key_perm (k : string) (l : list string) :
  Permutation (insert_key k l) (k :: l).
Proof.
  induction l as [|h t IH]; [reflexivity|].
  cbn [insert_key]. destruct (String.leb k h); [reflexivity|].
  rewrite IH. apply perm_swap.
Qed.

Lemma sort_keys_perm (l : list string) : Permutation (sort_keys l) l.
Proof.
  unfold sort_keys. induction l as [|a l IH]; [reflexivity|].
  cbn [fold_right]. rewrite insert_key_perm, IH. reflexivity.
Qed.

Definition str_lt (a b : string) : Prop := String.ltb a b = true.

Lemma str_lt_trans (a b c : string) : str_lt a b -> str_lt b c -> str_lt a c.
Proof.
  unfold str_lt, String.ltb.
  destruct (String.compare a b) eqn:E1; try discriminate.
  destruct (String.compare b c) eqn:E2; try discriminate. intros _ _.
  apply OrderedTypeEx.String_as_OT.cmp_lt in E1, E2.
  pose proof (OrderedTypeEx.String_as_OT.lt_trans _ _ _ E1 E2) as E.
  apply OrderedTypeEx.String_as_OT.cmp_lt in E.
  unfold OrderedTypeEx.String_as_OT.cmp in E. rewrite E. reflexivity.
Qed.

Lemma str_leb_lt (k h : string) :
  String.leb k h = true -> k <> h -> str_lt k h.
Proof.
  unfold str_lt, String.leb, String.ltb. intros H Hne.
  destruct (String.compare k h) eqn:E; try reflexivity; try discriminate.
  apply String.compare_eq_iff in E. contradiction.
Qed.

Lemma str_leb_false (k h : string) : String.leb k h = false -> str_lt h k.
Proof.
  unfold str_lt, String.leb, String.ltb. intros H.
  rewrite String.compare_antisym.
  destruct (String.compare k h); try discriminate. reflexivity.
Qed.

Lemma insert_key_hd (h k : string) (t : list string) :
  HdRel str_lt h t -> str_lt h k -> HdRel str_lt h (insert_key k t).
Proof.
  intros Ht Hk. destruct t as [|x t]; cbn [insert_key].
  - constructor. exact Hk.
  - destruct (String.leb k x); constructor; [exact Hk|]. inversion Ht; assumption.
Qed.

Lemma insert_key_sorted (k : string) (l : list string) :
  Sorted str_lt l -> ~ In k l -> Sorted str_lt (insert_key k l).
Proof.
  induction l as [|h t IH]; intros Hs Hk; [repeat constructor|].
  inversion Hs as [|? ? Ht Hh]; subst.
  cbn [insert_key]. destruct (String.leb k h) eqn:E.
  - constructor; [exact Hs|]. constructor. apply str_leb_lt; [exact E|].
    intros ->. apply Hk. left. reflexivity.
  - constructor.
    + apply IH; [exact Ht|]. intros H. apply Hk. right. exact H.
    + apply insert_key_hd; [exact Hh|]. apply str_leb_false, E.
Qed.

Lemma sort_keys_sorted (l : list string) :
  NoDup l -> StronglySorted str_lt (sort_keys l).
Proof.
  intros Hnd. apply Sorted_StronglySorted; [exact str_lt_trans|].
  induction l as [|a l IH]; [constructor|].
  inversion Hnd as [|? ? Ha Hnd']; subst.
  unfold sort_keys. cbn [fold_right]. fold (sort_keys l).
  apply insert_key_sorted; [exact (IH Hnd')|].
  intros H. apply Ha. exact (Permutation_in _ (sort_keys_perm l) H).
Qed.

Lemma flat_map_ext_in {A B} (f g : A -> list B) (l : list A) :
  (forall a, In a l -> f a = g a) -> flat_map f l = flat_map g l.
Proof.
  induction l as [|a l IH]; intros H; [reflexivity|].
  cbn [flat_map]. rewrite (H a (or_introl eq_refl)), IH; [reflexivity|].
  intros b Hb. apply H. right. exact Hb.
Qed.

Lemma group_perm (coll_of : item -> string) (ks : list string) (l : list item) :
  NoDup ks -> (forall x, In x l -> In (coll_of x) ks) ->
  Permutation
    (flat_map (fun k => filter (fun x => String.eqb (coll_of x) k) l) ks) l.
Proof.
  intros Hnd. induction l as [|x l IH]; intros Hin.
  - cbn [filter]. clear. induction ks as [|k ks IHk]; [reflexivity|].
    cbn [flat_map app]. exact IHk.
  - destruct (in_split _ _ (Hin x (or_introl eq_refl))) as (ks1 & ks2 & Eks).
    assert (Hout : forall k, In k ks1 \/ In k ks2 -> k <> coll_of x).
    { intros k Hk ->. rewrite Eks in Hnd. apply NoDup_remove_2 in Hnd.
      apply Hnd, in_or_app. exact Hk. }
    assert (Hext : forall ks', (forall k, In k ks' -> k <> coll_of x) ->
              flat_map (fun k => filter (fun y => String.eqb (coll_of y) k) (x :: l)) ks' =
              flat_map (fun k => filter (fun y => String.eqb (coll_of y) k) l) ks').
    { intros ks' Hks'. apply flat_map_ext_in. intros k Hk. cbn [filter].
      destruct (String.eqb_spec (coll_of x) k) as [E|]; [|reflexivity].
      exfalso. exact (Hks' k Hk (eq_sym E)). }
    assert (IH' := IH (fun y Hy => Hin y (or_intror Hy))).
    rewrite Eks in IH' |- *. rewrite flat_map_app in IH' |- *.
    cbn [flat_map] in IH' |- *.
    rewrite (Hext ks1), (Hext ks2) by (intros k Hk; apply Hout; auto).
    cbn [filter]. rewrite String.eqb_refl. cbn [app].
    rewrite <- Permutation_middle. apply perm_skip. exact IH'.
Qed.

Lemma grouped_keys_in (coll_of : item -> string) (l : list item) (k : string) :
  In k (sort_keys (nodup string_dec (map coll_of l))) <->
  exists x, In x l /\ coll_of x = k.
Proof.
  split.
  - intros Hk. apply (Permutation_in _ (sort_keys_perm _)) in Hk.
    apply nodup_In, in_map_iff in Hk. destruct Hk as (x & Hx & Hxl).
    exists x. split; assumption.
  - intros (x & Hx & <-). apply (Permutation_in _ (Permutation_sym (sort_keys_perm _))).
    apply nodup_In, in_map, Hx.
Qed.

Lemma string_app_inv_l (s x y : string) : (s ++ x)%string = (s ++ y)%string -> x = y.
Proof.
  induction s as [|c s IH]; intros H; [exact H|].
  cbn in H. injection H as H. exact (IH H).
Qed.

(** every item of the input collection is handed to exactly one
    of the per-collection downloads, and nothing else is: the groups
    together are a rearrangement of the input. *)
Theorem download_grouped_partition (coll_of : item -> string) (out_dir : string)
    (item_coll : list item) :
  Permutation (concat (map snd (download_grouped coll_of out_dir item_coll))) item_coll.
Proof.
  unfold download_grouped, grouped_df. rewrite !map_map. cbn [snd].
  rewrite <- flat_map_concat_map. apply group_perm.
  - eapply Permutation_NoDup; [apply Permutation_sym, sort_keys_perm|]. apply NoDup_nodup.
  - intros x Hx. apply grouped_keys_in. exists x. split; [exact Hx | reflexivity].
Qed.

(** the groups come in strictly increasing order of collection
    id (no id twice), and each group is non-empty, holds only items of
    its collection, and keeps them in their input order. *)
Theorem grouped_df_rows (coll_of : item -> string) (item_coll : list item) :
  let rows := grouped_df coll_of item_coll in
  StronglySorted (fun a b => String.ltb a b = true) (map fst rows) /\
  Forall (fun row => snd row <> [] /\
                     Forall (fun x => coll_of x = fst row) (snd row) /\
                     snd row = filter (fun x => String.eqb (coll_of x) (fst row)) item_coll)
         rows.
Proof.
  intros rows. split.
  - unfold rows, grouped_df. rewrite map_map. cbn [fst]. rewrite map_id.
    apply sort_keys_sorted, NoDup_nodup.
  - unfold rows, grouped_df. apply Forall_map, Forall_forall. intros k Hk.
    cbn [fst snd]. split; [|split; [|reflexivity]].
    + apply grouped_keys_in in Hk. destruct Hk as (x & Hx & Ek).
      intros E. assert (Hf : In x (filter (fun y => String.eqb (coll_of y) k) item_coll)).
      { apply filter_In. split; [exact Hx|]. apply String.eqb_eq, Ek. }
      rewrite E in Hf. exact Hf.
    + apply Forall_forall. intros x Hx. apply filter_In in Hx.
      apply String.eqb_eq, Hx.
Qed.

(** when no collection id starts with "/", each collection is
    downloaded into its own directory: the [out_dir]s of the
    per-collection downloads are pairwise distinct. *)
Theorem download_grouped_distinct_dirs (coll_of : item -> string) (out_dir : string)
    (item_coll : list item) :
  (forall x, In x item_coll -> String.prefix "/" (coll_of x) = false) ->
  NoDup (map fst (download_grouped coll_of out_dir item_coll)).
Proof.
  intros Habs. unfold download_grouped, grouped_df. rewrite !map_map. cbn [fst].
  apply NoDup_map_NoDup_ForallPairs.
  - intros k1 k2 H1 H2 E.
    apply grouped_keys_in in H1, H2.
    destruct H1 as (x1 & Hx1 & <-), H2 as (x2 & Hx2 & <-).
    unfold path_join in E. rewrite (Habs x1 Hx1), (Habs x2 Hx2) in E.
    destruct (String.eqb out_dir ""); [exact E|].
    destruct (ends_with_slash out_dir); apply string_app_inv_l in E; [exact E|].
    cbn in E. injection E as E. exact E.
  - eapply Permutation_NoDup; [apply Permutation_sym, sort_keys_perm|]. apply NoDup_nodup.
Qed.

(** Three items of collections "b", "a", "b": two downloads, into
    "out/a" and "out/b". *)
Lemma download_grouped_distinct_dirs_witness :
  let coll_of := fun it : item => if String.eqb (item_id it) "1" then "a"%string else "b"%string in
  let l := [mk_sample 0; mk_sample 1; mk_sample 2] in
  (forall x, In x l -> String.prefix "/" (coll_of x) = false) /\
  NoDup (map fst (download_grouped coll_of "out" l)) /\
  map fst (download_grouped coll_of "out" l) = ["out/a"; "out/b"]%string.
Proof.
  intros coll_of l.
  assert (H : forall x, In x l -> String.prefix "/" (coll_of x) = false).
  { intros x _. unfold coll_of. destruct (String.eqb _ _); reflexivity. }
  split; [exact H|]. split; [exact (download_grouped_distinct_dirs coll_of "out" l H)|].
  vm_compute. reflexivity.
Defined.

(* ------------------------------------------------------------------ *)
(** ** [_create_and_save_catalog] *)

Lemma basename_aux_app (s t cur : string) :
  basename_aux (s ++ t) cur = basename_aux t (basename_aux s cur).
Proof.
  revert cur. induction s as [|c s IH]; intros cur; [reflexivity|].
  cbn [append basename_aux]. destruct (Ascii.eqb c "/"%char); apply IH.
Qed.

Lemma string_app_nil_r (s : string) : (s ++ "")%string = s.
Proof. induction s as [|c s IH]; [reflexivity|]. cbn. rewrite IH. reflexivity. Qed.

Lemma string_app_assoc (a b c : string) : ((a ++ b) ++ c)%string = (a ++ (b ++ c))%string.
Proof. induction a as [|x a IH]; [reflexivity|]. cbn. rewrite IH. reflexivity. Qed.

Lemma basename_aux_noslash (d cur : string) :
  has_slash d = false -> basename_aux d cur = (cur ++ d)%string.
Proof.
  revert cur. induction d as [|c d IH]; intros cur Hd.
  - cbn. symmetry. apply string_app_nil_r.
  - unfold has_slash in Hd. cbn [list_ascii_of_string existsb] in Hd.
    apply orb_false_iff in Hd. destruct Hd as [Hc Hd].
    cbn [basename_aux]. rewrite Hc, IH by exact Hd.
    rewrite string_app_assoc. reflexivity.
Qed.

Lemma basename_aux_slash_end (a cur : string) :
  ends_with_slash a = true -> basename_aux a cur = ""%string.
Proof.
  revert cur. induction a as [|c a IH]; intros cur Ha; [discriminate|].
  destruct a as [|c' a'].
  - cbn in Ha |- *. rewrite Ha. reflexivity.
  - cbn [basename_aux]. destruct (Ascii.eqb c "/"%char); apply IH; exact Ha.
Qed.

Lemma prefix_slash_noslash (d : string) : has_slash d = false -> String.prefix "/" d = false.
Proof.
  destruct d as [|c d]; intros H; [reflexivity|].
  cbn [String.prefix]. destruct (ascii_dec "/" c) as [<-|]; [discriminate H | reflexivity].
Qed.

(** [os.path.basename(os.path.join(a, d))] is [d] for a name [d]
    without "/", as [os.listdir] returns. *)
Lemma basename_join (a d : string) :
  has_slash d = false -> path_basename (path_join a d) = d.
Proof.
  intros Hd. unfold path_join, path_basename. rewrite prefix_slash_noslash by exact Hd.
  destruct (String.eqb a "").
  - rewrite basename_aux_noslash by exact Hd. reflexivity.
  - destruct (ends_with_slash a) eqn:Ea.
    + rewrite basename_aux_app, (basename_aux_slash_end a) by exact Ea.
      rewrite basename_aux_noslash by exact Hd. reflexivity.
    + rewrite basename_aux_app. cbn [basename_aux append]. cbn [Ascii.eqb].
      rewrite basename_aux_noslash by exact Hd. reflexivity.
Qed.

Lemma load_and_add_nil (buffer0 : geometry -> geometry) (p cp : string) (st : cat_state) :
  load_and_add_collection buffer0 p [] cp st = Raised ValueError st.
Proof. reflexivity. Qed.

Lemma load_and_add_cons (buffer0 : geometry -> geometry) (p cp : string)
    (items : list item) (st : cat_state) :
  items <> [] ->
  exists ext,
    create_full_extent buffer0 items = Some ext /\
    load_and_add_collection buffer0 p items cp st =
      Ok (fst st ++ [mkCollection (path_basename cp) p ext items
                      (map (fun it => path_join cp (item_id it ++ ".json")) items)],
          snd st ++ [p]).
Proof.
  intros Hne. unfold load_and_add_collection.
  destruct (create_full_extent buffer0 items) as [ext|] eqn:E.
  - exists ext. split; reflexivity.
  - exfalso. destruct items as [|it its]; [contradiction|]. discriminate E.
Qed.

Lemma coll_dirs_filter (listing : list cat_entry) :
  coll_dirs (filter is_cat_dir listing) = coll_dirs listing.
Proof.
  induction listing as [|e l IH]; [reflexivity|].
  destruct e as [n|n c]; cbn [filter is_cat_dir]; [exact IH|].
  unfold coll_dirs in *. cbn [flat_map]. rewrite IH. reflexivity.
Qed.

Lemma catalog_loop_outcome (buffer0 : geometry -> geometry) (out : string)
    (dirs : list cat_entry) (st : cat_state) :
  ((exists st', catalog_loop buffer0 out dirs st = Ok st') <->
   Forall (fun p => snd p <> []) (coll_dirs dirs)) /\
  (forall e st', catalog_loop buffer0 out dirs st = Raised e st' -> e = ValueError).
Proof.
  revert st. induction dirs as [|d dirs IH]; intros st.
  - split; [split; [constructor | intros _; exists st; reflexivity]|].
    intros e st' H. discriminate H.
  - destruct d as [n|n [items|]]; cbn [catalog_loop]; try apply IH.
    unfold coll_dirs. cbn [flat_map app]. fold (coll_dirs dirs).
    destruct items as [|it its].
    + rewrite load_and_add_nil. split.
      * split; [intros (st' & E); discriminate E|].
        intros H. inversion H as [|? ? Hne _]. contradiction.
      * intros e st' E. injection E as <- _. reflexivity.
    + destruct (load_and_add_cons buffer0
                  (path_join (path_join out n) "item-collection.json")
                  (path_join out n) (it :: its) st) as (ext & _ & ->);
        [discriminate|].
      destruct (IH (fst st ++ [mkCollection (path_basename (path_join out n))
                      (path_join (path_join out n) "item-collection.json") ext (it :: its)
                      (map (fun it0 => path_join (path_join out n) (item_id it0 ++ ".json"))
                         (it :: its))],
                    snd st ++ [path_join (path_join out n) "item-collection.json"]))
        as [IH1 IH2].
      split; [|exact IH2]. rewrite IH1. split.
      * intros H. constructor; [discriminate | exact H].
      * intros H. inversion H; assumption.
Qed.

(** the catalog step fails exactly when one of the
    item-collection.json files it finds (at the root, or in a
    subdirectory) lists no items, and it then raises ValueError (from
    [min] of the empty list of datetimes). *)
Theorem create_and_save_catalog_fails (buffer0 : geometry -> geometry)
    (root_dir : string) (root_coll : option (list item)) (listing : list cat_entry) :
  ((exists st, create_and_save_catalog buffer0 root_dir root_coll listing = Ok st) <->
   root_coll <> Some [] /\ Forall (fun p => snd p <> []) (coll_dirs listing)) /\
  (forall e st, create_and_save_catalog buffer0 root_dir root_coll listing = Raised e st ->
   e = ValueError).
Proof.
  unfold create_and_save_catalog.
  destruct root_coll as [[|it its]|].
  - rewrite load_and_add_nil. split.
    + split; [intros (st & E); discriminate E|]. intros [H _]. contradiction.
    + intros e st E. injection E as <- _. reflexivity.
  - destruct (load_and_add_cons buffer0 (path_join root_dir "item-collection.json") ""
                (it :: its) ([], [])) as (ext & _ & ->); [discriminate|].
    destruct (catalog_loop_outcome buffer0 root_dir (filter is_cat_dir listing)
      (fst ([] : list collection, [] : list string) ++
         [mkCollection (path_basename "") (path_join root_dir "item-collection.json") ext
            (it :: its) (map (fun it0 => path_join "" (item_id it0 ++ ".json")) (it :: its))],
       snd ([] : list collection, [] : list string) ++
         [path_join root_dir "item-collection.json"])) as [H1 H2].
    rewrite coll_dirs_filter in H1. split; [|exact H2]. rewrite H1.
    split; [intros H; split; [discriminate | exact H] | intros [_ H]; exact H].
  - destruct (catalog_loop_outcome buffer0 root_dir (filter is_cat_dir listing) ([], []))
      as [H1 H2].
    rewrite coll_dirs_filter in H1. split; [|exact H2]. rewrite H1.
    split; [intros H; split; [discriminate | exact H] | intros [_ H]; exact H].
Qed.

Lemma catalog_loop_ok (buffer0 : geometry -> geometry) (out : string)
    (dirs : list cat_entry) (cs0 cs : list collection) (rm0 rm : list string) :
  Forall (fun p => has_slash (fst p) = false) (coll_dirs dirs) ->
  catalog_loop buffer0 out dirs (cs0, rm0) = Ok (cs, rm) ->
  rm0 = map coll_self_href cs0 ->
  Forall (fun c => create_full_extent buffer0 (coll_items c) = Some (coll_extent c)) cs0 ->
  map coll_id cs = map coll_id cs0 ++ map fst (coll_dirs dirs) /\
  map coll_items cs = map coll_items cs0 ++ map snd (coll_dirs dirs) /\
  rm = map coll_self_href cs /\
  Forall (fun c => create_full_extent buffer0 (coll_items c) = Some (coll_extent c)) cs.
Proof.
  revert cs0 rm0. induction dirs as [|d dirs IH]; intros cs0 rm0 Hsl H Hrm Hext.
  - cbn in H. injection H as <- <-. cbn. rewrite !app_nil_r. auto.
  - destruct d as [n|n [items|]]; cbn [catalog_loop] in H;
      unfold coll_dirs in Hsl |- *; cbn [flat_map app] in Hsl |- *;
      fold (coll_dirs dirs) in *; try exact (IH cs0 rm0 Hsl H Hrm Hext).
    inversion Hsl as [|? ? Hn Hsl']. cbn [fst] in Hn.
    destruct items as [|it its]; [rewrite load_and_add_nil in H; discriminate H|].
    destruct (load_and_add_cons buffer0
                (path_join (path_join out n) "item-collection.json")
                (path_join out n) (it :: its) (cs0, rm0)) as (ext & Eext & E);
      [discriminate|].
    rewrite E in H. cbn [fst snd] in H.
    destruct (IH _ _ Hsl' H) as (K1 & K2 & K3 & K4).
    + rewrite Hrm, map_app. reflexivity.
    + apply Forall_app. split; [exact Hext|]. constructor; [exact Eext | constructor].
    + rewrite K1, K2, map_app, map_app, <- !app_assoc. cbn.
      rewrite basename_join by exact Hn. auto.
Qed.

(** when the catalog step succeeds, its collections are, in
    order, the root item-collection.json (with id "") if there is one,
    then one per listed subdirectory holding an item-collection.json,
    with the directory's name as id (names from [os.listdir] hold no
    "/"); each has the file's items and the extent computed from them,
    and every file a collection was made from is removed. *)
Theorem create_and_save_catalog_children (buffer0 : geometry -> geometry)
    (root_dir : string) (root_coll : option (list item)) (listing : list cat_entry)
    (children : list collection) (removed : list string) :
  Forall (fun p => has_slash (fst p) = false) (coll_dirs listing) ->
  create_and_save_catalog buffer0 root_dir root_coll listing = Ok (children, removed) ->
  map coll_id children =
    (match root_coll with Some _ => [""%string] | None => [] end) ++
    map fst (coll_dirs listing) /\
  map coll_items children =
    (match root_coll with Some items => [items] | None => [] end) ++
    map snd (coll_dirs listing) /\
  removed = map coll_self_href children /\
  Forall (fun c => create_full_extent buffer0 (coll_items c) = Some (coll_extent c))
    children.
Proof.
  intros Hsl H. unfold create_and_save_catalog in H.
  rewrite <- coll_dirs_filter in Hsl |- *.
  destruct root_coll as [[|it its]|].
  - rewrite load_and_add_nil in H. discriminate H.
  - destruct (load_and_add_cons buffer0 (path_join root_dir "item-collection.json") ""
                (it :: its) ([], [])) as (ext & Eext & E); [discriminate|].
    rewrite E in H. cbn [fst snd app] in H.
    destruct (catalog_loop_ok _ _ _ _ _ _ _ Hsl H) as (H1 & H2 & H3 & H4).
    + reflexivity.
    + constructor; [exact Eext | constructor].
    + rewrite H1, H2. auto.
  - destruct (catalog_loop_ok _ _ _ _ _ _ _ Hsl H) as (H1 & H2 & H3 & H4);
      [reflexivity | constructor|].
    rewrite H1, H2. auto.
Qed.

(** A root collection of one item and two subdirectories, one with a
    collection of one item, one without. *)
Lemma create_and_save_catalog_children_witness :
  let it := mkItem "i" (unit_square 0 0) 5%Z in
  let listing := [CatFile "item-collection.json"; CatDir "S2" (Some [it]);
                  CatDir "misc" None] in
  exists children removed,
    Forall (fun p => has_slash (fst p) = false) (coll_dirs listing) /\
    create_and_save_catalog (fun g => g) "out" (Some [it]) listing =
      Ok (children, removed) /\
    map coll_id children = [""; "S2"]%string /\
    removed = ["out/item-collection.json"; "out/S2/item-collection.json"]%string.
Proof.
  intros it listing.
  destruct (create_and_save_catalog (fun g => g) "out" (Some [it]) listing)
    as [[children removed]|e st] eqn:E; [|vm_compute in E; discriminate E].
  assert (Hsl : Forall (fun p => has_slash (fst p) = false) (coll_dirs listing))
    by (repeat constructor).
  exists children, removed. split; [exact Hsl|]. split; [reflexivity|].
  destruct (create_and_save_catalog_children (fun g => g) "out" (Some [it]) listing
              children removed Hsl E) as (H1 & _ & H3 & _).
  split; [exact H1|]. rewrite H3.
  vm_compute in E. injection E as <- <-. reflexivity.
Defined.

(* ------------------------------------------------------------------ *)
(** ** [_async_message_handling] *)

Lemma message_loop_inv (interval : Q) (msgs : list observation) (s s' : bar_state)
    (rest : list observation) :
  message_loop interval msgs s = Some (s', rest) ->
  exists ts,
    update_times s' = update_times s ++ ts /\
    spaced interval (last_checked s) ts /\
    (bar_n s' - prev_size s' = bar_n s - prev_size s)%Z /\
    (ts = [] -> prev_size s' = prev_size s) /\
    (ts <> [] -> exists o, In o msgs /\ obs_is_none o = false /\
                  obs_time o = last ts 0%Q /\ obs_dir_size o = prev_size s').
Proof.
  revert s. induction msgs as [|o msgs IH]; intros s H; [discriminate H|].
  cbn [message_loop] in H. destruct (obs_is_none o) eqn:En.
  - injection H as <- _. exists []. rewrite app_nil_r.
    split; [reflexivity|]. split; [exact I|]. split; [reflexivity|].
    split; [reflexivity | intros C; contradiction].
  - destruct (Qle_bool interval (obs_time o - last_checked s)) eqn:Eq.
    + destruct (IH _ H) as (ts & H1 & H2 & H3 & H4 & H5). cbn [update_times last_checked
        bar_n prev_size] in H1, H2, H3, H4.
      exists (obs_time o :: ts). split; [rewrite H1, <- app_assoc; reflexivity|].
      split; [split; [apply Qle_bool_iff, Eq | exact H2]|].
      split; [lia|]. split; [discriminate|]. intros _.
      destruct ts as [|t ts].
      * exists o. split; [left; reflexivity|]. split; [exact En|].
        split; [reflexivity|]. symmetry. apply H4. reflexivity.
      * destruct (H5 ltac:(discriminate)) as (o' & Ho' & E1 & E2 & E3).
        exists o'. split; [right; exact Ho'|]. split; [exact E1|]. split; [|exact E3].
        rewrite E2. reflexivity.
    + destruct (IH _ H) as (ts & H1 & H2 & H3 & H4 & H5).
      exists ts. split; [exact H1|]. split; [exact H2|]. split; [exact H3|].
      split; [exact H4|]. intros Hts. destruct (H5 Hts) as (o' & Ho' & E).
      exists o'. split; [right; exact Ho' | exact E].
Qed.

(** when the handler stops at the [None] sentinel, the
    progress bar's counter equals the directory size read at its last
    update (the increments [self._dir_size - prev_size] add up), and it
    is 0 when the bar was never updated. *)
Theorem message_handling_bar_total (interval t0 : Q) (msgs : list observation)
    (s : bar_state) (rest : list observation) :
  message_handling interval t0 msgs = Some (s, rest) ->
  bar_n s = prev_size s /\
  (update_times s = [] -> bar_n s = 0%Z) /\
  (update_times s <> [] ->
   exists o, In o msgs /\ obs_is_none o = false /\
             obs_time o = last (update_times s) 0%Q /\ obs_dir_size o = bar_n s).
Proof.
  intros H. destruct (message_loop_inv _ _ _ _ _ H) as (ts & H1 & _ & H3 & H4 & H5).
  cbn [update_times bar_n prev_size app] in H1, H3, H4.
  assert (Hb : bar_n s = prev_size s) by lia.
  split; [exact Hb|]. rewrite H1. split.
  - intros ->. rewrite Hb. apply H4. reflexivity.
  - intros Hts. rewrite Hb. exact (H5 Hts).
Qed.

(** Two messages before the sentinel, the second one more than a
    second after the start: one update, to the size then read. *)
Lemma message_handling_bar_total_witness :
  let msgs := [mkObs false (1#2) 5%Z; mkObs false 2 7%Z; mkObs true 3 9%Z] in
  exists s rest,
    message_handling 1 0 msgs = Some (s, rest) /\ bar_n s = 7%Z /\
    bar_n s = prev_size s.
Proof.
  intros msgs.
  destruct (message_handling 1 0 msgs) as [[s rest]|] eqn:E; [|vm_compute in E; discriminate E].
  exists s, rest. split; [reflexivity|].
  destruct (message_handling_bar_total 1 0 msgs s rest E) as [Hb _].
  split; [|exact Hb]. vm_compute in E. injection E as <- _. reflexivity.
Defined.

(** the progress bar is updated at most once per [interval]:
    the first update comes at least [interval] after the handler
    started, and any two successive updates are at least [interval]
    apart. *)
Theorem message_handling_spaced (interval t0 : Q) (msgs : list observation)
    (s : bar_state) (rest : list observation) :
  message_handling interval t0 msgs = Some (s, rest) ->
  spaced interval t0 (update_times s).
Proof.
  intros H. destruct (message_loop_inv _ _ _ _ _ H) as (ts & H1 & H2 & _).
  cbn [update_times last_checked app] in H1, H2. rewrite H1. exact H2.
Qed.

Lemma message_handling_spaced_witness :
  let msgs := [mkObs false (1#2) 5%Z; mkObs false 2 7%Z; mkObs false (5#2) 8%Z;
               mkObs false 3 9%Z; mkObs true 4 9%Z] in
  exists s rest,
    message_handling 1 0 msgs = Some (s, rest) /\
    spaced 1 0 (update_times s) /\ update_times s = [2; 3]%Q.
Proof.
  intros msgs.
  destruct (message_handling 1 0 msgs) as [[s rest]|] eqn:E; [|vm_compute in E; discriminate E].
  exists s, rest. split; [reflexivity|].
  split; [exact (message_handling_spaced 1 0 msgs s rest E)|].
  vm_compute in E. injection E as <- _. reflexivity.
Defined.

(* ------------------------------------------------------------------ *)
(** ** Edge cases of the download phases *)

(** with an empty item collection (the preview being skipped
    since [len(self.item_coll) < preview_size]), nothing is signed or
    fetched; the main loop [range(0, 0, batch_size)] raises ValueError
    when [reauth_batch_size] is None or 0 ([batch_size] is then
    [len(self.item_coll) = 0]), and ends normally otherwise. *)
Theorem download_events_empty_collection (fuel : nat) (ok : nat -> bool)
    (preview_size : nat) (reauth_batch_size : option nat) (pre_coll : list item) :
  0 < preview_size ->
  download_events fuel ok preview_size reauth_batch_size [] pre_coll =
    ([], match reauth_batch_size with
         | Some (S _) => PhaseDone 0
         | _ => PhaseRaised ValueError
         end).
Proof.
  intros Hp. unfold download_events. destruct preview_size as [|k]; [lia|].
  cbn [Nat.leb List.length]. destruct reauth_batch_size as [[|b]|]; reflexivity.
Qed.

Lemma download_events_empty_collection_witness :
  0 < 10 /\
  download_events 5 (fun _ => true) 10 None [] [] = ([], PhaseRaised ValueError).
Proof.
  split; [lia|]. exact (download_events_empty_collection 5 (fun _ => true) 10 None [] ltac:(lia)).
Defined.

(** with [preview_size = 0] the preview runs (any collection has
    at least 0 items) on an empty sample, and when [reauth_batch_size]
    is None or 0 its loop [range(0, 0, 0)] raises ValueError: the
    download aborts before anything is signed or fetched. *)
Theorem download_events_preview_zero (fuel : nat) (ok : nat -> bool)
    (reauth_batch_size : option nat) (item_coll pre_coll : list item) :
  List.length pre_coll = 0 ->
  reauth_batch_size = None \/ reauth_batch_size = Some 0 ->
  download_events fuel ok 0 reauth_batch_size item_coll pre_coll =
    ([], PhaseRaised ValueError).
Proof.
  intros Hlen Hr. destruct pre_coll; [|discriminate Hlen].
  destruct Hr as [-> | ->]; reflexivity.
Qed.

Lemma download_events_preview_zero_witness :
  List.length ([] : list item) = 0 /\ (@None nat = None \/ @None nat = Some 0) /\
  download_events 5 (fun _ => true) 0 None items25 [] = ([], PhaseRaised ValueError).
Proof.
  split; [reflexivity|]. split; [left; reflexivity|].
  exact (download_events_preview_zero 5 (fun _ => true) None items25 [] eq_refl
           (or_introl eq_refl)).
Defined.

(** [reauth_batch_size = 0] is falsy for the batch size but not
    None: a non-empty collection is fetched as one batch, which is
    first signed through the re-signing loop. *)
Theorem download_phase_reauth_zero (fuel : nat) (ok : nat -> bool) (dest : string)
    (named : bool) (coll : list item) (c : nat) :
  coll <> [] ->
  download_phase fuel ok (Some 0) dest named coll c =
    let '(e1, r) := resign fuel ok c coll in
    match r with
    | None => (e1, PhaseBlocked)
    | Some c' =>
        (e1 ++ [Fetch dest (if named then batch_file_name 0 else default_file_name) coll],
         PhaseDone c')
    end.
Proof.
  intros Hne. assert (Hn : 1 <= List.length coll) by (destruct coll; [contradiction | cbn; lia]).
  unfold download_phase, py_range. cbn [batch_size_of].
  destruct (Nat.eqb_spec (List.length coll) 0) as [E|_]; [lia|].
  rewrite range_single by exact Hn. cbn [batch_loop].
  replace (py_slice coll 0 (0 + List.length coll)) with coll
    by (unfold py_slice; rewrite Nat.sub_0_r, Nat.add_0_l; symmetry; apply firstn_all).
  destruct (resign fuel ok c coll) as [e1 [c'|]]; reflexivity.
Qed.

Lemma download_phase_reauth_zero_witness :
  items25 <> [] /\
  download_phase 5 (fun _ => true) (Some 0) "out_dir" true items25 0 =
    ([SignCall items25 true; Fetch "out_dir" (batch_file_name 0) items25], PhaseDone 1).
Proof.
  assert (H : items25 <> []) by discriminate.
  split; [exact H|].
  rewrite (download_phase_reauth_zero 5 (fun _ => true) "out_dir" true items25 0 H).
  reflexivity.
Defined.

(** [_STACDownloader.run] on an empty item collection (with at
    least one retry) raises ZeroDivisionError in [len(coll) /
    len(self.item_coll)] right after its first download attempt. *)
Theorem run_empty_collection (attempt : nat -> list item -> option nat)
    (retries : Z) (got : nat) :
  (1 <= retries)%Z -> attempt 0 [] = Some got ->
  run attempt [] retries =
    Raised ZeroDivisionError (mkRunState [[]] [LoopLine 0] (Some got) None).
Proof.
  intros Hr Ha. unfold run.
  destruct (Z.to_nat retries) as [|k] eqn:E; [lia|].
  cbn [run_loop]. rewrite Ha. reflexivity.
Qed.

Lemma run_empty_collection_witness :
  (1 <= 3)%Z /\ (fun (_ : nat) (_ : list item) => Some 0) 0 [] = Some 0 /\
  run (fun _ _ => Some 0) [] 3 =
    Raised ZeroDivisionError (mkRunState [[]] [LoopLine 0] (Some 0) None).
Proof.
  split; [lia|]. split; [reflexivity|].
  exact (run_empty_collection (fun _ _ => Some 0) 3 0 ltac:(lia) eq_refl).
Defined.

(* ------------------------------------------------------------------ *)
(** ** [_sizeof_fmt] beyond the last prefix, the estimate's division *)

Lemma sizeof_loop_overflow (units : list string) (num : R) :
  (1024 ^ List.length units <= Rabs num)%R ->
  sizeof_loop units num = ((num / 1024 ^ List.length units)%R, "Yi"%string).
Proof.
  revert num. induction units as [|u rest IH]; intros num H.
  - cbn [sizeof_loop List.length pow]. unfold Rdiv. rewrite Rinv_1, Rmult_1_r. reflexivity.
  - cbn [List.length pow] in H |- *.
    assert (Hp : (1 <= 1024 ^ List.length rest)%R) by (apply pow_R1_Rle; lra).
    cbn [sizeof_loop]. destruct (Rlt_dec (Rabs num) 1024) as [Hl|_]; [nra|].
    rewrite IH.
    + f_equal. field.
      first [apply pow_nonzero; lra | split; [lra | apply pow_nonzero; lra]
            | split; [apply pow_nonzero; lra | lra]].
    + unfold Rdiv. rewrite Rabs_mult, Rabs_inv, (Rabs_pos_eq 1024) by lra.
      apply (Rmult_le_reg_r 1024); [lra|].
      rewrite Rmult_assoc, Rinv_l, Rmult_1_r by lra. lra.
Qed.

(** a number of magnitude at least 1024^8 is divided by 1024^8
    and shown with the last prefix, "YiB", however large it is. *)
Theorem sizeof_fmt_overflow (num : R) :
  (1024 ^ 8 <= Rabs num)%R ->
  sizeof_fmt num = ((num / 1024 ^ 8)%R, "YiB"%string).
Proof.
  intros H. unfold sizeof_fmt. rewrite sizeof_loop_overflow by exact H. reflexivity.
Qed.

Lemma sizeof_fmt_overflow_witness :
  (1024 ^ 8 <= Rabs (1024 ^ 9))%R /\
  sizeof_fmt (1024 ^ 9) = (((1024 ^ 9) / 1024 ^ 8)%R, "YiB"%string).
Proof.
  assert (H : (1024 ^ 8 <= Rabs (1024 ^ 9))%R).
  { rewrite Rabs_pos_eq by (apply pow_le; lra). apply Rle_pow; [lra | lia]. }
  split; [exact H | exact (sizeof_fmt_overflow _ H)].
Defined.

Lemma sumR_zeros (xs : list R) :
  (forall x, In x xs -> x = 0%R) -> sumR xs = 0%R.
Proof.
  induction xs as [|x xs IH]; intros H0; [reflexivity|].
  cbn [sumR fold_right]. fold (sumR xs).
  rewrite (H0 x (or_introl eq_refl)), IH; [ring|].
  intros y Hy. apply H0. right. exact Hy.
Qed.

Lemma np_std_zeros (xs : list R) :
  (forall x, In x xs -> x = 0%R) -> np_std xs = 0%R.
Proof.
  intros H0. unfold np_std, np_mean. rewrite (sumR_zeros xs H0).
  rewrite sumR_zeros.
  - unfold Rdiv. rewrite Rmult_0_l. exact sqrt_0.
  - intros y Hy. apply in_map_iff in Hy. destruct Hy as (x & <- & Hx).
    rewrite (H0 x Hx). unfold Rdiv. ring.
Qed.

(** the preview's size estimate never raises: the scratch
    directory always holds item-collection.json, so [n_items >= 1]. Its
    confidence half-width is nan (numpy's [0.0 / 0.0], or [np.std] of an
    empty sample) exactly when no sampled item kept a directory through
    the preview's cleanup or the sample is empty; otherwise it is
    finite. *)
Theorem preview_estimate_nan (j : Z) (dir_of : string -> list entry)
    (kept pre_coll : list item) (n_total : nat) :
  exists ci,
    estimate (preview_dir j dir_of kept) pre_coll n_total =
      Some ((IZR (get_dir_size (preview_dir j dir_of kept))
             / INR (S (List.length kept)) * INR n_total)%R, ci) /\
    (ci = NaN <-> kept = [] \/ pre_coll = []) /\
    (ci <> NaN -> exists r, ci = Fin r).
Proof.
  set (tmp := preview_dir j dir_of kept).
  assert (Hlen : List.length tmp = S (List.length kept))
    by (unfold tmp, preview_dir; cbn [List.length]; rewrite length_map; reflexivity).
  unfold estimate. rewrite Hlen. eexists. split; [reflexivity|].
  destruct pre_coll as [|it0 pre'] eqn:Ep.
  - cbn [map np_std_f f_scale f_div f_mul].
    split; [split; [intros _; right; reflexivity | reflexivity]|].
    intros H. contradiction.
  - rewrite <- Ep.
    assert (Hs : np_std_f (map (fun x => IZR (sub_dir_size tmp (item_id x))) pre_coll)
                 = Fin (np_std (map (fun x => IZR (sub_dir_size tmp (item_id x))) pre_coll)))
      by (rewrite Ep; reflexivity).
    rewrite Hs. cbn [f_scale f_div].
    destruct kept as [|k0 kept'].
    + assert (Hz : np_std (map (fun x => IZR (sub_dir_size tmp (item_id x))) pre_coll) = 0%R).
      { apply np_std_zeros. intros x Hx. apply in_map_iff in Hx.
        destruct Hx as (it & <- & _). reflexivity. }
      rewrite Hz. cbn [List.length]. rewrite Nat.sub_diag. cbn [INR]. rewrite sqrt_0, Rmult_0_r.
      destruct (Req_EM_T 0 0) as [_|Hn]; [|contradiction].
      destruct (Rlt_dec 0 0) as [Hl|_]; [lra|].
      cbn [f_mul]. split; [split; [intros _; left; reflexivity | reflexivity]|].
      intros H. contradiction.
    + cbn [List.length]. rewrite Nat.sub_succ, Nat.sub_0_r.
      destruct (Req_EM_T (sqrt (INR (S (List.length kept')))) 0) as [E|_].
      * exfalso. revert E. apply Rgt_not_eq, sqrt_lt_R0, lt_0_INR. lia.
      * cbn [f_mul]. split; [split; [discriminate|] | intros _; eexists; reflexivity].
        intros [H|H]; [discriminate | rewrite Ep in H; discriminate].
Qed.

(* ------------------------------------------------------------------ *)
(** ** [_find_empty_subdirs], [_remove_empty_items], merge *)

(** [_find_empty_subdirs] lists each empty directory below the
    root exactly once, and nothing else, except the root itself, which
    is listed exactly when it is empty. *)
Theorem find_empty_subdirs_exact (cs : list entry) :
  names_unique (DirE "" cs) ->
  NoDup (find_empty_subdirs (Some cs)) /\
  (forall p, In p (find_empty_subdirs (Some cs)) <->
             (cs = [] /\ p = []) \/ empty_dir_at p cs).
Proof.
  intros Hwf. split; [apply walk_nodup, Hwf|].
  intros p. unfold find_empty_subdirs. rewrite walk_in. split.
  - intros [H|(r & -> & Hr)]; [left; exact H | right; exact Hr].
  - intros [H|H]; [left; exact H | right; exists p; split; [reflexivity | exact H]].
Qed.

Lemma find_empty_subdirs_exact_witness :
  let cs := [FileE "item-collection.json" 10%Z false;
             DirE "A" [DirE "sub" []]; DirE "B" []] in
  names_unique (DirE "" cs) /\
  NoDup (find_empty_subdirs (Some cs)) /\
  find_empty_subdirs (Some cs) = [["B"]; ["A"; "sub"]]%string.
Proof.
  intros cs.
  assert (Hwf : names_unique (DirE "" cs)).
  { apply names_unique_dir. split.
    - repeat constructor; cbn; intuition discriminate.
    - repeat constructor; cbn; intuition discriminate. }
  split; [exact Hwf|]. split; [exact (proj1 (find_empty_subdirs_exact cs Hwf))|].
  reflexivity.
Defined.

(** when no directory below the output directory is empty, the
    cleanup deletes nothing and writes item-collection.json back with
    the same items. *)
Theorem remove_empty_items_nothing_empty (out_name : string) (cs : list entry)
    (items : list item) :
  cs <> [] -> (forall r, ~ empty_dir_at r cs) ->
  remove_empty_items out_name (mkFs (Some cs) (Some items)) =
    Ret tt (mkFs (Some cs) (Some items)).
Proof.
  intros Hcs Hnone.
  assert (Hnil : find_empty_subdirs (Some cs) = []).
  { destruct (find_empty_subdirs (Some cs)) as [|p ps] eqn:E; [reflexivity|].
    exfalso. assert (Hp : In p (find_empty_subdirs (Some cs))) by (rewrite E; left; reflexivity).
    apply (find_empty_subdirs_in cs p Hcs) in Hp. exact (Hnone p Hp). }
  unfold remove_empty_items. cbn [fs_root]. rewrite Hnil.
  cbn [rmtree_all map remove_each]. unfold mbind, mret, read_artifact, write_artifact.
  cbn [fs_artifact fs_root].
  rewrite filter_all_true; [reflexivity|].
  intros it Hit. unfold in_ids. apply existsb_exists.
  exists (item_id it). split; [apply in_map, Hit | apply String.eqb_refl].
Qed.

Lemma remove_empty_items_nothing_empty_witness :
  let cs := [FileE "item-collection.json" 10%Z false; DirE "A" [FileE "x.tif" 5%Z false]] in
  cs <> [] /\ (forall r, ~ empty_dir_at r cs) /\
  remove_empty_items "out" (mkFs (Some cs) (Some [mkItem "A" [] 0%Z])) =
    Ret tt (mkFs (Some cs) (Some [mkItem "A" [] 0%Z])).
Proof.
  intros cs.
  assert (Hcs : cs <> []) by discriminate.
  assert (Hnone : forall r, ~ empty_dir_at r cs).
  { intros r H. destruct r as [|m [|y ys]]; cbn in H; [exact H | intuition discriminate |].
    destruct H as (ch & Hin & H). destruct Hin as [E|[E|[]]]; [discriminate|].
    injection E as <- <-. destruct ys as [|z zs]; cbn in H; [intuition discriminate|].
    destruct H as (ch' & [E|[]] & _). discriminate. }
  split; [exact Hcs|]. split; [exact Hnone|].
  exact (remove_empty_items_nothing_empty "out" cs _ Hcs Hnone).
Defined.

Lemma merge_loop_other (paths : list string) (acc : list item) (st : store) (g : string) :
  ~ In g paths ->
  store_lookup g (match merge_loop paths acc st with
                  | Ok (_, s) => s
                  | Raised _ (_, s) => s
                  end) = store_lookup g st.
Proof.
  revert acc st. induction paths as [|f rest IH]; intros acc st Hg; [reflexivity|].
  cbn [merge_loop]. destruct (store_lookup f st) as [[items|]|]; try reflexivity.
  rewrite IH by (intros H; apply Hg; right; exact H).
  apply store_lookup_remove_other. intros ->. apply Hg. left. reflexivity.
Qed.

(** the merge step, whether it completes or raises, leaves every
    entry of [out_dir] other than the per-batch artifacts and
    item-collection.json as it was. *)
Theorem merge_batches_other_files (listing : list string) (st : store) (g : string) :
  String.prefix batch_prefix g = false -> g <> default_file_name ->
  store_lookup g (match merge_batches listing st with Ok s => s | Raised _ s => s end) =
    store_lookup g st.
Proof.
  intros Hg Hd. unfold merge_batches.
  assert (Hn : ~ In g (filter (String.prefix batch_prefix) listing)).
  { intros H. apply filter_In in H. rewrite Hg in H. destruct H as [_ H]. discriminate H. }
  pose proof (merge_loop_other _ [] st g Hn) as H.
  destruct (merge_loop _ [] st) as [[all st']|e [all st']]; [|exact H].
  rewrite store_lookup_save_other by exact Hd. exact H.
Qed.

Lemma merge_batches_other_files_witness :
  let st := [("log.txt"%string, OtherEntry);
             (batch_file_name 0, ItemCollFile [mk_sample 0])] in
  String.prefix batch_prefix "log.txt" = false /\ "log.txt"%string <> default_file_name /\
  store_lookup "log.txt" (match merge_batches (map fst st) st with
                          | Ok s => s | Raised _ s => s end) = Some OtherEntry.
Proof.
  intros st.
  assert (H1 : String.prefix batch_prefix "log.txt" = false) by reflexivity.
  assert (H2 : "log.txt"%string <> default_file_name) by discriminate.
  split; [exact H1|]. split; [exact H2|].
  rewrite (merge_batches_other_files (map fst st) st "log.txt" H1 H2). reflexivity.
Defined.
